(** * gisim.classes.character: the character entity and its message handler

    A shallow embedding of [src/gisim/classes/character.py].  The handler
    [CharacterEntity.msg_handler] inspects the head of a shared priority
    queue of message objects, may pop it, may push follow-up messages and
    may append its own id to the [responded_entities] list of the message
    object it inspected.  Message objects are shared between the queue and
    the handler, so the queue is modelled as an object store plus a list of
    references into it. *)

From stdpp Require Import base decidable option list strings gmap.
From Stdlib Require Import ZArith Lia.

Open Scope Z_scope.

(** ** Enumerations and identities *)

(** Modelled from the spec: [gisim/classes/enums.py] is not part of the
    sources.  The code under study only compares members of [PlayerID] and
    [CharPos] for equality and only names the member [NONE] of
    [ElementType] and [ElementalReactionType]; every enumeration is
    represented by the ordinal of its member, [NONE] being ordinal 0. *)
Abbreviation PlayerID := nat.
Abbreviation CharPos := nat.
Abbreviation ElementType := nat.
Abbreviation ElementalReactionType := nat.
Abbreviation SkillType := nat.

Definition ElementType_NONE : ElementType := 0%nat.
Definition ElementalReactionType_NONE : ElementalReactionType := 0%nat.

(** Modelled from the spec: [gisim/classes/entity.py] is not part of the
    sources.  [Entity.__init__] gives every entity a process-unique opaque
    id [_uuid], immutable afterwards. *)
Abbreviation UUID := nat.

(** Python exceptions that the modelled code can raise. *)
Inductive Exn := IndexError | KeyError | AssertionError.

(** The outcome of a call: a returned value or a raised exception. *)
Inductive Outcome (A : Type) :=
| Return (a : A)
| Raise (e : Exn).
Arguments Return {A} a.
Arguments Raise {A} e.

(** ** Skills and character cards *)

Module Skill.
(** [class Skill]: [cost] is a dict from element to amount, or [None]
    when the skill is free.  The three abstract properties
    ([requirements], [targets], [effects]) have no body in the base
    class and carry no state. *)
Record t := mk {
  name : string;
  RAW_COST : option (list (ElementType * Z));
  TYPE : SkillType;
  current_cost : option (list (ElementType * Z));
}.

Definition init (name : string) (cost : option (list (ElementType * Z)))
    (skill_type : SkillType) : t :=
  {| name := name; RAW_COST := cost; TYPE := skill_type;
     current_cost := cost |}.
End Skill.

Module CharacterCard.
(** Modelled from the spec: the card template of
    [gisim/cards/characters/base.py], which is not part of the sources.
    Only the attributes that [CharacterEntity.__init__] reads are kept. *)
Record t := mk {
  element_type : ElementType;
  nations : list string;
  weapon_type : string;
  skills : list Skill.t;
  health_point : Z;
  power : Z;
  max_power : Z;
}.
End CharacterCard.

(** ** Character entities *)

Record CharacterEntity := mkCharacterEntity {
  _uuid : UUID;
  player_id : PlayerID;
  position : CharPos;
  name : string;
  active : bool;
  alive : bool;
  elemental_infusion : ElementType;
  elemental_attachment : ElementType;
  id : nat;
  character_card : CharacterCard.t;
  element_type : ElementType;
  nationalities : list string;
  weapon_type : string;
  skills : list Skill.t;
  skill_num : Z;
  skill_names : list string;
  health_point : Z;
  power : Z;
  max_power : Z;
}.

(** Attribute assignments [self.active = b], [self.alive = b] and
    [self.health_point = h]. *)
Definition set_active (b : bool) (e : CharacterEntity) : CharacterEntity :=
  mkCharacterEntity (_uuid e) (player_id e) (position e) (name e) b (alive e)
    (elemental_infusion e) (elemental_attachment e) (id e) (character_card e)
    (element_type e) (nationalities e) (weapon_type e) (skills e)
    (skill_num e) (skill_names e) (health_point e) (power e) (max_power e).

Definition set_alive (b : bool) (e : CharacterEntity) : CharacterEntity :=
  mkCharacterEntity (_uuid e) (player_id e) (position e) (name e) (active e) b
    (elemental_infusion e) (elemental_attachment e) (id e) (character_card e)
    (element_type e) (nationalities e) (weapon_type e) (skills e)
    (skill_num e) (skill_names e) (health_point e) (power e) (max_power e).

Definition set_health_point (h : Z) (e : CharacterEntity) : CharacterEntity :=
  mkCharacterEntity (_uuid e) (player_id e) (position e) (name e) (active e)
    (alive e) (elemental_infusion e) (elemental_attachment e) (id e)
    (character_card e) (element_type e) (nationalities e) (weapon_type e)
    (skills e) (skill_num e) (skill_names e) h (power e) (max_power e).

Section Construction.
(** The card tables of [gisim.cards.characters.base], imported by the
    module but defined outside the sources: a dict from character name
    to id and a dict from id to card template. *)
Variable CHARACTER_NAME2ID : gmap string nat.
Variable CHARACTER_CARDS : gmap nat CharacterCard.t.

(** [CharacterEntity.__init__].  The id produced by [super().__init__()]
    is passed in as [uuid].  A name or an id missing from the tables
    raises [KeyError]. *)
Definition CharacterEntity_init (uuid : UUID) (name : string)
    (player_id : PlayerID) (position : CharPos) : Outcome CharacterEntity :=
  match CHARACTER_NAME2ID !! name with
  | None => Raise KeyError
  | Some id =>
    match CHARACTER_CARDS !! id with
    | None => Raise KeyError
    | Some card =>
      let skills := CharacterCard.skills card in
      Return {|
        _uuid := uuid;
        player_id := player_id;
        position := position;
        name := name;
        active := false;
        alive := true;
        elemental_infusion := ElementType_NONE;
        elemental_attachment := ElementType_NONE;
        id := id;
        character_card := card;
        element_type := CharacterCard.element_type card;
        nationalities := CharacterCard.nations card;
        weapon_type := CharacterCard.weapon_type card;
        skills := skills;
        skill_num := Z.of_nat (length skills);
        skill_names := Skill.name <$> skills;
        health_point := CharacterCard.health_point card;
        power := CharacterCard.power card;
        max_power := CharacterCard.max_power card;
      |}
    end
  end.
End Construction.

(** [list.index]: the position of the first occurrence. *)
Definition list_index (x : string) (l : list string) : option nat :=
  fst <$> list_find (λ y, y = x) l.

(** [CharacterEntity.get_raw_skill].  A selector that is [None] in Python
    is [None] here; the Python value [None] that the function returns when
    it falls off its last branch is [Return None]. *)
Definition get_raw_skill (self : CharacterEntity) (id : option Z)
    (skill_name : option string) (skill_type : option SkillType)
    : Outcome (option Skill.t) :=
  match id with
  | Some id =>
    if bool_decide (0 ≤ id ≤ skill_num self - 1) then
      match skills self !! Z.to_nat id with
      | Some s => Return (Some s)
      | None => Raise IndexError
      end
    else Raise AssertionError
  | None =>
    match skill_name with
    | Some skill_name =>
      if bool_decide (skill_name ∈ skill_names self) then
        match list_index skill_name (skill_names self) ≫= (skills self !!.) with
        | Some s => Return (Some s)
        | None => Raise IndexError
        end
      else Raise AssertionError
    | None =>
      if bool_decide (is_Some skill_type) then Return None
      else Raise AssertionError
    end
  end.

(** ** Messages *)

(** Modelled from the spec: [gisim/classes/message.py] is not part of the
    sources.  A message carries a priority key, a sender and the list of
    ids of the entities that already responded to it; the variants and
    their payloads are the ones the handler reads or builds.  [OtherMsg]
    stands for every message class the handler has no branch for. *)
Inductive MsgBody :=
| UseSkillMsg (user_pos : CharPos) (skill_name : string)
    (skill_target : list (PlayerID * CharPos))
| ChangeCharacterMsg (target : PlayerID * CharPos)
| DealDamageMsg (targets : list (PlayerID * CharPos * ElementType * Z))
    (elemental_reaction_triggered : ElementalReactionType)
| CharacterDiedMsg (target : PlayerID * CharPos)
| OtherMsg.

Record Message := mkMessage {
  priority : Z;
  sender_id : PlayerID;
  responded_entities : list UUID;
  body : MsgBody;
}.

Definition is_DealDamage (m : Message) : bool :=
  match body m with DealDamageMsg _ _ => true | _ => false end.

Definition is_CharacterDied (m : Message) : bool :=
  match body m with CharacterDiedMsg _ => true | _ => false end.

(** ** The shared priority queue *)

(** A reference to a message object: its index in the object store. *)
Abbreviation ref := nat.

(** Modelled from the spec: the resolution queue, a [queue.PriorityQueue]
    of message objects whose ordering is defined in the missing
    [message.py].  [queue] is the underlying list ([msg_queue.queue]),
    lowest priority key first and insertion order among equal keys;
    [store] holds every message object ever allocated, so that an object
    reachable both from the queue and from a local variable of the handler
    is one object. *)
Record PriorityQueue := mkPriorityQueue {
  store : list Message;
  queue : list ref;
}.

Definition priority_of (s : list Message) (r : ref) : Z :=
  from_option priority 0 (s !! r).

Fixpoint insert_by_priority (s : list Message) (r : ref) (l : list ref)
    : list ref :=
  match l with
  | [] => [r]
  | r' :: l' =>
    if bool_decide (priority_of s r < priority_of s r') then r :: l
    else r' :: insert_by_priority s r l'
  end.

(** [msg_queue.put(Msg(...))]: allocate the new object, then enqueue it. *)
Definition put (m : Message) (q : PriorityQueue) : PriorityQueue :=
  let r := length (store q) in
  let s := store q ++ [m] in
  {| store := s; queue := insert_by_priority s r (queue q) |}.

(** [msg_queue.get()], called by the handler only after it has read
    [msg_queue.queue[0]]: the head leaves the queue, the object stays. *)
Definition get (q : PriorityQueue) : PriorityQueue :=
  {| store := store q; queue := tail (queue q) |}.

(** [msg.responded_entities.append(uuid)] on the object behind [r]. *)
Definition append_responded (r : ref) (uuid : UUID) (q : PriorityQueue)
    : PriorityQueue :=
  {| store :=
       alter (λ m, mkMessage (priority m) (sender_id m)
                     (responded_entities m ++ [uuid]) (body m)) r (store q);
     queue := queue q |}.

(** The head of the queue together with the object it refers to. *)
Definition head_msg (q : PriorityQueue) : option (ref * Message) :=
  r ← head (queue q); m ← store q !! r; Some (r, m).

(** ** The message handler *)

Section Handler.
(** Class-level default priorities of the two message classes the
    handler instantiates (defined in the missing [message.py]). *)
Variable DealDamageMsg_priority : Z.
Variable CharacterDiedMsg_priority : Z.

(** One iteration of the loop over [msg.targets] (lines 123-136);
    [r] is the message object bound to [msg]. *)
Definition damage_step (r : ref)
    (acc : bool * CharacterEntity * PriorityQueue)
    (t : PlayerID * CharPos * ElementType * Z)
    : bool * CharacterEntity * PriorityQueue :=
  let '(updated, self, msg_queue) := acc in
  let '(target_id, target_pos, element_type, dmg_val) := t in
  if bool_decide (player_id self = target_id)
     && bool_decide (position self = target_pos) then
    let self1 :=
      set_health_point
        (health_point self - Z.min (health_point self) dmg_val) self in
    let '(self2, msg_queue1) :=
      if bool_decide (health_point self1 = 0) then
        let dead_msg :=
          {| priority := CharacterDiedMsg_priority;
             sender_id := player_id self1;
             responded_entities := [];
             body := CharacterDiedMsg (player_id self1, position self1) |} in
        (set_alive false self1, put dead_msg msg_queue)
      else (self1, msg_queue) in
    (true, self2, append_responded r (_uuid self2) msg_queue1)
  else acc.

Definition damage_loop (r : ref)
    (targets : list (PlayerID * CharPos * ElementType * Z))
    (acc : bool * CharacterEntity * PriorityQueue)
    : bool * CharacterEntity * PriorityQueue :=
  foldl (damage_step r) acc targets.

(** [CharacterEntity.msg_handler]: the outcome, the entity afterwards and
    the queue afterwards.  State changes made before an exception is
    raised persist, as they do in Python. *)
Definition msg_handler (self : CharacterEntity) (msg_queue : PriorityQueue)
    : Outcome bool * CharacterEntity * PriorityQueue :=
  match head_msg msg_queue with
  | None => (Raise IndexError, self, msg_queue)
  | Some (r, msg) =>
    if bool_decide (_uuid self ∈ responded_entities msg) then
      (Return false, self, msg_queue)
    else
      match body msg with
      | UseSkillMsg user_pos skill_name skill_target =>
        if bool_decide (user_pos = position self) then
          let msg_queue1 := get msg_queue in
          match skill_target with
          | [] => (Raise IndexError, self, msg_queue1)
          | (target_player, target_pos) :: _ =>
            let dmg_msg :=
              {| priority := DealDamageMsg_priority;
                 sender_id := player_id self;
                 responded_entities := [];
                 body :=
                   DealDamageMsg
                     [(target_player, target_pos, ElementType_NONE, 2)]
                     ElementalReactionType_NONE |} in
            (Return true, self, put dmg_msg msg_queue1)
          end
        else (Return false, self, msg_queue)
      | ChangeCharacterMsg target =>
        if bool_decide (player_id self = target.1) then
          if bool_decide (position self = target.2) then
            (Return true, set_active true self,
             append_responded r (_uuid self) msg_queue)
          else if bool_decide (position self ≠ target.2) && active self then
            (Return true, set_active false self,
             append_responded r (_uuid self) msg_queue)
          else (Return false, self, msg_queue)
        else (Return false, self, msg_queue)
      | DealDamageMsg targets _ =>
        let '(updated, self1, msg_queue1) :=
          damage_loop r targets (false, self, msg_queue) in
        (Return updated, self1, msg_queue1)
      | _ => (Return false, self, msg_queue)
      end
  end.
End Handler.

(** ** Derived notions used to state the properties *)

(** A damage tuple is addressed to an entity when player and position
    agree (line 124). *)
Definition addressed (self : CharacterEntity)
    (t : PlayerID * CharPos * ElementType * Z) : bool :=
  bool_decide (player_id self = t.1.1.1) && bool_decide (position self = t.1.1.2).

Definition addressed_amounts (self : CharacterEntity)
    (targets : list (PlayerID * CharPos * ElementType * Z)) : list Z :=
  snd <$> filter (λ t, addressed self t = true) targets.

Definition sum_Z (l : list Z) : Z := foldr Z.add 0 l.

(** The damage tuples carried by the head of the queue ([[]] when the
    head is not a [DealDamageMsg]). *)
Definition head_targets (q : PriorityQueue)
    : list (PlayerID * CharPos * ElementType * Z) :=
  match head_msg q with
  | Some (_, msg) =>
    match body msg with DealDamageMsg targets _ => targets | _ => [] end
  | None => []
  end.

(** The message objects currently in the queue, in queue order. *)
Definition queued (q : PriorityQueue) : list Message :=
  omap (store q !!.) (queue q).

Definition count_CharacterDied (q : PriorityQueue) : nat :=
  length (filter (λ m, is_CharacterDied m = true) (queued q)).

Definition count_active (p : PlayerID) (es : list CharacterEntity) : nat :=
  length (filter (λ e, player_id e = p ∧ active e = true) es).

(** What [__init__] establishes about the three skill attributes. *)
Definition skills_consistent (e : CharacterEntity) : Prop :=
  skill_num e = Z.of_nat (length (skills e))
  ∧ skill_names e = Skill.name <$> skills e.

(** [e'] is [e] up to [health_point] and [alive]. *)
Definition same_but_health (e e' : CharacterEntity) : Prop :=
  e' = set_alive (alive e') (set_health_point (health_point e') e).

(** The health invariant kept by the damage loop under non-negative
    amounts. *)
Definition health_ok (e : CharacterEntity) : Prop :=
  0 ≤ health_point e ∧ alive e = bool_decide (0 < health_point e).

Definition nonneg_for (e : CharacterEntity)
    (targets : list (PlayerID * CharPos * ElementType * Z)) : Prop :=
  Forall (λ t, addressed e t = true → 0 ≤ t.2) targets.

(** The head of [q] is a [DealDamageMsg] that [self] has not responded to
    and whose tuples addressed to [self] carry non-negative amounts. *)
Definition fresh_damage (self : CharacterEntity) (q : PriorityQueue) : Prop :=
  ∃ r msg targets reaction,
    head_msg q = Some (r, msg)
    ∧ body msg = DealDamageMsg targets reaction
    ∧ (_uuid self ∉ responded_entities msg)
    ∧ nonneg_for self targets.

(** The sum of the amounts addressed to [self] by the heads of [qs]. *)
Definition damage_total (self : CharacterEntity) (qs : list PriorityQueue) : Z :=
  sum_Z (qs ≫= λ q, addressed_amounts self (head_targets q)).

(** The message built at lines 129-132. *)
Definition dead_msg_of (cp : Z) (e : CharacterEntity) : Message :=
  {| priority := cp;
     sender_id := player_id e;
     responded_entities := [];
     body := CharacterDiedMsg (player_id e, position e) |}.

(** What one handler call does to an entity's [active] flag when the head
    is a [ChangeCharacterMsg] for player [p] and position [x]. *)
Definition switched (p : PlayerID) (x : CharPos) (e : CharacterEntity)
    : CharacterEntity :=
  if bool_decide (player_id e = p) then
    if bool_decide (position e = x) then set_active true e
    else if active e then set_active false e
    else e
  else e.

(** The message built at lines 103-107 for the first target [t]. *)
Definition damage_msg_of (dp : Z) (self : CharacterEntity)
    (t : PlayerID * CharPos) : Message :=
  {| priority := dp;
     sender_id := player_id self;
     responded_entities := [];
     body := DealDamageMsg [(t.1, t.2, ElementType_NONE, 2)]
               ElementalReactionType_NONE |}.

Section Runs.
Variable DealDamageMsg_priority : Z.
Variable CharacterDiedMsg_priority : Z.

Local Abbreviation handler :=
  (msg_handler DealDamageMsg_priority CharacterDiedMsg_priority).

(** One entity handles the heads of a sequence of queues, one call per
    queue; whatever happens to the queue between two calls is up to the
    driver, so each queue of the sequence is arbitrary. *)
Definition handle_each (self : CharacterEntity) (qs : list PriorityQueue)
    : CharacterEntity :=
  foldl (λ e q, (handler e q).1.2) self qs.

(** Every entity of [es] handles the head of one shared queue, in list
    order: the outcome and the entity after each call, and the queue at
    the end. *)
Fixpoint broadcast (es : list CharacterEntity) (q : PriorityQueue)
    : list (Outcome bool * CharacterEntity) * PriorityQueue :=
  match es with
  | [] => ([], q)
  | e :: es' =>
    let '(o, e', q') := handler e q in
    let '(res, q'') := broadcast es' q' in
    ((o, e') :: res, q'')
  end.
End Runs.

(** ** Snapshots (lines 56-67 and 174-187) *)

(** The Python values held by the attributes of a character entity. *)
Inductive PyVal :=
| PStr (s : string)
| PBool (b : bool)
| PInt (z : Z)
| PUUID (u : UUID)
| PPlayerID (p : PlayerID)
| PCharPos (c : CharPos)
| PElementType (e : ElementType)
| PCard (c : CharacterCard.t)
| PStrList (l : list string)
| PSkillList (l : list Skill.t).

(** The data attributes of an instance, by name: the one set by
    [Entity.__init__] and those set by [CharacterEntity.__init__]. *)
Definition attributes (self : CharacterEntity) : list (string * PyVal) :=
  [ ("_uuid", PUUID (_uuid self));
    ("player_id", PPlayerID (player_id self));
    ("position", PCharPos (position self));
    ("name", PStr (name self));
    ("active", PBool (active self));
    ("alive", PBool (alive self));
    ("elemental_infusion", PElementType (elemental_infusion self));
    ("elemental_attachment", PElementType (elemental_attachment self));
    ("id", PInt (Z.of_nat (id self)));
    ("character_card", PCard (character_card self));
    ("element_type", PElementType (element_type self));
    ("nationalities", PStrList (nationalities self));
    ("weapon_type", PStr (weapon_type self));
    ("skills", PSkillList (skills self));
    ("skill_num", PInt (skill_num self));
    ("skill_names", PStrList (skill_names self));
    ("health_point", PInt (health_point self));
    ("power", PInt (power self));
    ("max_power", PInt (max_power self)) ].

(** [getattr(self, key)] on a data attribute; [None] stands for the
    [AttributeError] of a name the instance does not have. *)
Definition getattr (self : CharacterEntity) (key : string) : option PyVal :=
  (λ found : nat * (string * PyVal), found.2.2)
    <$> list_find (λ kv : string * PyVal, kv.1 = key) (attributes self).

(** The list [properties] of [encode]. *)
Definition properties : list string :=
  [ "name"; "active"; "alive"; "elemental_infusion"; "elemental_attachment";
    "health_point"; "power"; "max_power" ].

(** [CharacterEntity.encode]: the dict comprehension over [properties];
    [None] if some [getattr] failed. *)
Definition encode (self : CharacterEntity) : option (gmap string PyVal) :=
  list_to_map <$> mapM (λ key, pair key <$> getattr self key) properties.

Module CharacterEntityInfo.
(** [class CharacterEntityInfo]: the annotations are not enforced, every
    attribute holds whatever value the dict has under its key. *)
Record t := mk {
  name : PyVal;
  active : PyVal;
  alive : PyVal;
  elemental_infusion : PyVal;
  elemental_attachment : PyVal;
  health_point : PyVal;
  power : PyVal;
  max_power : PyVal;
}.

(** [CharacterEntityInfo.__init__]: eight subscriptions, in this order;
    the first key that is missing raises [KeyError]. *)
Definition init (character_entity_info_dict : gmap string PyVal) : Outcome t :=
  let d := character_entity_info_dict in
  from_option Return (Raise KeyError)
    (name ← d !! "name";
     active ← d !! "active";
     alive ← d !! "alive";
     elemental_infusion ← d !! "elemental_infusion";
     elemental_attachment ← d !! "elemental_attachment";
     health_point ← d !! "health_point";
     power ← d !! "power";
     max_power ← d !! "max_power";
     Some (mk name active alive elemental_infusion elemental_attachment
             health_point power max_power)).
End CharacterEntityInfo.

(** ** Pure views of the damage loop *)

(** Line 125: the health left by one addressed amount. *)
Definition hit (hp dmg_val : Z) : Z := hp - Z.min hp dmg_val.

(** The number of addressed amounts after which the health is 0, that is
    the number of times line 126 holds. *)
Fixpoint deaths (hp : Z) (amounts : list Z) : nat :=
  match amounts with
  | [] => 0%nat
  | d :: l =>
    ((if bool_decide (hit hp d = 0%Z) then 1 else 0) + deaths (hit hp d) l)%nat
  end.

(** [e'] is [e] up to the three attributes the handler assigns. *)
Definition same_but_state (e e' : CharacterEntity) : Prop :=
  e' = set_active (active e')
         (set_alive (alive e') (set_health_point (health_point e') e)).

(** The dict that [encode] builds, entry by entry. *)
Definition snapshot (self : CharacterEntity) : list (string * PyVal) :=
  [ ("name", PStr (name self));
    ("active", PBool (active self));
    ("alive", PBool (alive self));
    ("elemental_infusion", PElementType (elemental_infusion self));
    ("elemental_attachment", PElementType (elemental_attachment self));
    ("health_point", PInt (health_point self));
    ("power", PInt (power self));
    ("max_power", PInt (max_power self)) ].

(** The head of the queue is a [UseSkillMsg] that [self] has not responded
    to and whose user position is the position of [self]: the one case in
    which the handler pops the queue. *)
Definition consumes (self : CharacterEntity) (q : PriorityQueue) : Prop :=
  ∃ r msg nm tgts,
    head_msg q = Some (r, msg)
    ∧ (_uuid self ∉ responded_entities msg)
    ∧ body msg = UseSkillMsg (position self) nm tgts.

(** ** Sample data *)

Module Sample.
Definition normal_attack : Skill.t :=
  Skill.init "Kamisato Art: Kabuki" (Some [(1%nat, 1); (0%nat, 2)]) 0%nat.
Definition elemental_skill : Skill.t :=
  Skill.init "Kamisato Art: Hyouka" (Some [(1%nat, 3)]) 1%nat.
Definition elemental_burst : Skill.t :=
  Skill.init "Kamisato Art: Soumetsu" (Some [(1%nat, 3)]) 2%nat.

Definition ayaka_card : CharacterCard.t :=
  CharacterCard.mk 1%nat ["Inazuma"] "sword"
    [normal_attack; elemental_skill; elemental_burst] 10 0 3.

Definition kaeya_card : CharacterCard.t :=
  CharacterCard.mk 1%nat ["Mondstadt"] "sword"
    [Skill.init "Ceremonial Bladework" (Some [(1%nat, 1); (0%nat, 2)]) 0%nat;
     Skill.init "Frostgnaw" (Some [(1%nat, 3)]) 1%nat] 10 0 2.

Definition NAME2ID : gmap string nat :=
  {[ "Kamisato Ayaka" := 0%nat; "Kaeya" := 1%nat ]}.
Definition CARDS : gmap nat CharacterCard.t :=
  {[ 0%nat := ayaka_card; 1%nat := kaeya_card ]}.

(** An entity built field by field, as [__init__] would from [card]. *)
Definition entity (uuid : UUID) (name : string) (card : CharacterCard.t)
    (p : PlayerID) (pos : CharPos) (act alv : bool) (hp : Z)
    : CharacterEntity :=
  {| _uuid := uuid; player_id := p; position := pos; name := name;
     active := act; alive := alv;
     elemental_infusion := ElementType_NONE;
     elemental_attachment := ElementType_NONE;
     id := 0%nat; character_card := card;
     element_type := CharacterCard.element_type card;
     nationalities := CharacterCard.nations card;
     weapon_type := CharacterCard.weapon_type card;
     skills := CharacterCard.skills card;
     skill_num := Z.of_nat (length (CharacterCard.skills card));
     skill_names := Skill.name <$> CharacterCard.skills card;
     health_point := hp;
     power := CharacterCard.power card;
     max_power := CharacterCard.max_power card |}.

(** A queue holding the single message [m]. *)
Definition single (m : Message) : PriorityQueue :=
  {| store := [m]; queue := [0%nat] |}.

Definition deal (sender : PlayerID)
    (targets : list (PlayerID * CharPos * ElementType * Z)) : Message :=
  mkMessage 3 sender [] (DealDamageMsg targets ElementalReactionType_NONE).

Definition use_skill (sender : PlayerID) (user_pos : CharPos)
    (skill_target : list (PlayerID * CharPos)) : Message :=
  mkMessage 2 sender [] (UseSkillMsg user_pos "Kamisato Art: Kabuki" skill_target).

Definition change (sender : PlayerID) (target : PlayerID * CharPos) : Message :=
  mkMessage 2 sender [] (ChangeCharacterMsg target).
End Sample.

(** * Properties *)

(** ** Queue operations *)

Lemma insert_by_priority_perm s r l : insert_by_priority s r l ≡ₚ r :: l.
Proof.
  induction l as [|r' l IH]; simpl; [done|].
  case_bool_decide; [done|].
  rewrite IH. apply Permutation_swap.
Qed.

Lemma put_store m q : store (put m q) = store q ++ [m].
Proof. done. Qed.

Lemma put_queue_perm m q : queue (put m q) ≡ₚ length (store q) :: queue q.
Proof. apply insert_by_priority_perm. Qed.

Lemma put_lookup_old m q i :
  (i < length (store q))%nat → store (put m q) !! i = store q !! i.
Proof. intros Hi. rewrite put_store. by apply lookup_app_l. Qed.

Lemma put_lookup_new m q : store (put m q) !! length (store q) = Some m.
Proof. rewrite put_store. apply list_lookup_middle. done. Qed.

Lemma append_responded_queue r u q : queue (append_responded r u q) = queue q.
Proof. done. Qed.

Lemma append_responded_length r u q :
  length (store (append_responded r u q)) = length (store q).
Proof. unfold append_responded. cbn [store]. apply length_alter. Qed.

Lemma append_responded_lookup_ne r u q i :
  r ≠ i → store (append_responded r u q) !! i = store q !! i.
Proof. intros. unfold append_responded. cbn [store]. by apply list_lookup_alter_ne. Qed.

Lemma append_responded_lookup r u q m :
  store q !! r = Some m →
  store (append_responded r u q) !! r
  = Some (mkMessage (priority m) (sender_id m) (responded_entities m ++ [u])
            (body m)).
Proof.
  intros H. unfold append_responded. cbn [store].
  by rewrite list_lookup_alter_eq, H.
Qed.

Lemma head_msg_Some q r m :
  head_msg q = Some (r, m) ↔ head (queue q) = Some r ∧ store q !! r = Some m.
Proof.
  unfold head_msg. destruct (head (queue q)) as [r'|]; simpl.
  - destruct (store q !! r') as [m'|] eqn:E; simpl.
    + split; [by intros [= -> ->]|]. intros [[= ->] Hm]. congruence.
    + split; [done|]. intros [[= ->] Hm]. congruence.
  - split; [done|]. by intros [? _].
Qed.

(** ** The already-responded guard (lines 91-93) *)

(** C8: when the head message already lists this entity's id among its
    responded entities, [msg_handler] returns [False] and leaves both the
    entity and the queue (its order and every message object) as they
    were. *)
Theorem msg_handler_already_responded
    (dp cp : Z) (self : CharacterEntity) (q : PriorityQueue)
    (r : ref) (msg : Message) :
  head_msg q = Some (r, msg) →
  _uuid self ∈ responded_entities msg →
  msg_handler dp cp self q = (Return false, self, q).
Proof.
  intros Hhead Hin. unfold msg_handler. rewrite Hhead.
  by rewrite bool_decide_eq_true_2.
Qed.

Lemma msg_handler_already_responded_witness :
  msg_handler 3 1 (Sample.entity 7 "Kaeya" Sample.kaeya_card 1 0 true true 10)
    (Sample.single (mkMessage 3 2%nat [4%nat; 7%nat]
       (DealDamageMsg [(1%nat, 0%nat, ElementType_NONE, 5)] ElementalReactionType_NONE)))
  = (Return false,
     Sample.entity 7 "Kaeya" Sample.kaeya_card 1 0 true true 10,
     Sample.single (mkMessage 3 2%nat [4%nat; 7%nat]
       (DealDamageMsg [(1%nat, 0%nat, ElementType_NONE, 5)] ElementalReactionType_NONE))).
Proof.
  eapply msg_handler_already_responded.
  - reflexivity.
  - simpl. apply list_elem_of_In. simpl. auto.
Defined.

(** ** Skill lookup (lines 69-87) *)

Lemma CharacterEntity_init_skills_consistent n2i cards uuid nm p pos e :
  CharacterEntity_init n2i cards uuid nm p pos = Return e → skills_consistent e.
Proof.
  unfold CharacterEntity_init. intros H.
  destruct (n2i !! nm) as [i|]; [|done].
  destruct (cards !! i) as [card|]; [|done].
  by inversion_clear H.
Qed.

Lemma list_index_Some x l i :
  list_index x l = Some i ↔ l !! i = Some x ∧ ∀ j, (j < i)%nat → l !! j ≠ Some x.
Proof.
  unfold list_index. split.
  - intros H. apply fmap_Some in H as ([i' y] & Hfind & ->).
    apply list_find_Some in Hfind as (Hi & -> & Hlt). simpl. split; [done|].
    intros j Hj Hl. by eapply Hlt.
  - intros [Hi Hlt]. apply fmap_Some. exists (i, x). split; [|done].
    apply list_find_Some. split_and!; [done..|].
    intros j y Hj Hji ->. by eapply Hlt.
Qed.

Lemma list_index_elem_of x l : x ∈ l → is_Some (list_index x l).
Proof.
  intros Hin. unfold list_index.
  destruct (list_find_elem_of (λ y, y = x) l x Hin eq_refl) as [[i y] ->].
  by eexists.
Qed.

(** The index selector: in range it yields the skill stored at that index,
    out of range the assertion fails. *)
Lemma get_raw_skill_by_id (self : CharacterEntity) (i : Z)
    (nm : option string) (ty : option SkillType) :
  skills_consistent self →
  (0 ≤ i ≤ skill_num self - 1 →
     ∃ s, skills self !! Z.to_nat i = Some s
          ∧ get_raw_skill self (Some i) nm ty = Return (Some s))
  ∧ (¬ (0 ≤ i ≤ skill_num self - 1) →
     get_raw_skill self (Some i) nm ty = Raise AssertionError).
Proof.
  intros [Hnum _]. unfold get_raw_skill. split; intros Hi.
  - rewrite bool_decide_eq_true_2 by done.
    destruct (lookup_lt_is_Some_2 (skills self) (Z.to_nat i)) as [s Hs]; [lia|].
    exists s. by rewrite Hs.
  - by rewrite bool_decide_eq_false_2.
Qed.

(** The name selector (no index given): a known name yields the first
    skill of that name, an unknown name fails the assertion. *)
Lemma get_raw_skill_by_name (self : CharacterEntity) (nm : string)
    (ty : option SkillType) :
  skills_consistent self →
  (nm ∈ skill_names self →
     ∃ i s, skills self !! i = Some s ∧ Skill.name s = nm
            ∧ (∀ j s', (j < i)%nat → skills self !! j = Some s' → Skill.name s' ≠ nm)
            ∧ get_raw_skill self None (Some nm) ty = Return (Some s))
  ∧ (nm ∉ skill_names self →
     get_raw_skill self None (Some nm) ty = Raise AssertionError).
Proof.
  intros [_ Hnames]. unfold get_raw_skill. split; intros Hin.
  - rewrite bool_decide_eq_true_2 by done.
    destruct (list_index_elem_of _ _ Hin) as [i Hi]. rewrite Hi. simpl.
    apply list_index_Some in Hi as [Hi Hfirst]. rewrite Hnames in Hi, Hfirst.
    apply list_lookup_fmap_Some in Hi as (s & -> & Hs).
    exists i, s. rewrite Hs. split_and!; [done..| |done].
    intros j s' Hj Hs' Heq. apply (Hfirst j Hj).
    by rewrite list_lookup_fmap, Hs', <- Heq.
  - by rewrite bool_decide_eq_false_2.
Qed.

(** C10: a call that gives only a [skill_type] (no index, no name) passes
    the last assertion and falls off the end of the function: it returns
    [None], whatever the character and whatever the category. *)
Theorem get_raw_skill_by_type_returns_None
    (self : CharacterEntity) (ty : SkillType) :
  get_raw_skill self None None (Some ty) = Return None.
Proof. reflexivity. Qed.

(** With no selector at all the last assertion fails. *)
Lemma get_raw_skill_no_selector (self : CharacterEntity) :
  get_raw_skill self None None None = Raise AssertionError.
Proof. reflexivity. Qed.

(** C7: the lookup by category of a skill the character does own (Kaeya's
    elemental skill, category 1, reachable both by index 1 and by name)
    returns [None] instead of that skill and without raising. *)
Theorem get_raw_skill_by_type_misses_owned_skill :
  let kaeya := Sample.entity 7 "Kaeya" Sample.kaeya_card 1 0 true true 10 in
  let frostgnaw := Skill.init "Frostgnaw" (Some [(1%nat, 3)]) 1%nat in
  get_raw_skill kaeya (Some 1) None None = Return (Some frostgnaw)
  ∧ get_raw_skill kaeya None (Some "Frostgnaw") None = Return (Some frostgnaw)
  ∧ Skill.TYPE frostgnaw = 1%nat
  ∧ get_raw_skill kaeya None None (Some 1%nat) = Return None.
Proof. vm_compute. done. Qed.

(** ** Damage (lines 121-136) *)

Lemma same_but_health_refl e : same_but_health e e.
Proof. by destruct e. Qed.

Lemma same_but_health_trans e1 e2 e3 :
  same_but_health e1 e2 → same_but_health e2 e3 → same_but_health e1 e3.
Proof.
  unfold same_but_health. intros H12 H23.
  etrans; [exact H23|]. by rewrite H12.
Qed.

Lemma same_but_health_addressed e e' t :
  same_but_health e e' → addressed e' t = addressed e t.
Proof. intros ->. done. Qed.

Lemma same_but_health_uuid e e' : same_but_health e e' → _uuid e' = _uuid e.
Proof. intros ->. done. Qed.

Lemma same_but_health_active e e' : same_but_health e e' → active e' = active e.
Proof. intros ->. done. Qed.

Lemma sum_Z_cons x l : sum_Z (x :: l) = x + sum_Z l.
Proof. done. Qed.

Lemma sum_Z_app l1 l2 : sum_Z (l1 ++ l2) = sum_Z l1 + sum_Z l2.
Proof.
  induction l1 as [|x l1 IH]; [done|].
  rewrite <- app_comm_cons, !sum_Z_cons. lia.
Qed.

Lemma sum_addressed_nonneg e targets :
  nonneg_for e targets → 0 ≤ sum_Z (addressed_amounts e targets).
Proof.
  unfold nonneg_for, addressed_amounts.
  induction 1 as [|t ts Ht _ IH]; [done|].
  rewrite filter_cons. case_decide; [|done].
  rewrite fmap_cons, sum_Z_cons. specialize (Ht ltac:(done)). lia.
Qed.

Section Damage.
Variable dp cp : Z.

Lemma damage_step_entity r u e q t :
  let '(u', e', q') := damage_step cp r (u, e, q) t in
  same_but_health e e'
  ∧ health_point e'
    = (if addressed e t
       then health_point e - Z.min (health_point e) t.2
       else health_point e)
  ∧ (alive e' = if addressed e t && bool_decide (health_point e' = 0)
                then false else alive e)
  ∧ u' = (addressed e t || u).
Proof.
  destruct t as [[[tp tpos] el] d]. unfold damage_step, addressed. simpl.
  destruct (bool_decide (player_id e = tp)),
    (bool_decide (position e = tpos)); simpl;
    try (split_and!; [apply same_but_health_refl|done..]).
  destruct (bool_decide (health_point e - health_point e `min` d = 0))
    eqn:Hz; simpl; rewrite ?Hz; (split_and!; [by destruct e|done..]).
Qed.

Lemma damage_step_health_ok r u e q t :
  health_ok e → (addressed e t = true → 0 ≤ t.2) →
  let '(_, e', _) := damage_step cp r (u, e, q) t in
  health_ok e'
  ∧ health_point e'
    = (if addressed e t then Z.max 0 (health_point e - t.2) else health_point e).
Proof.
  intros [Hhp Halive] Hnn.
  pose proof (damage_step_entity r u e q t) as Hstep.
  destruct (damage_step cp r (u, e, q) t) as [[u' e'] q'].
  destruct Hstep as (_ & Hh & Ha & _).
  unfold health_ok. rewrite Ha, Hh. clear Ha Hh.
  destruct (addressed e t); simpl.
  - specialize (Hnn eq_refl). split; [split|]; [lia| |lia].
    rewrite Halive. repeat case_bool_decide; (done || lia).
  - split_and!; done.
Qed.

Lemma damage_loop_entity r targets u e q :
  let '(u', e', q') := damage_loop cp r targets (u, e, q) in
  same_but_health e e'
  ∧ u' = (bool_decide (addressed_amounts e targets ≠ []) || u).
Proof.
  unfold damage_loop. revert u e q.
  induction targets as [|t ts IH]; intros u e q.
  { split; [apply same_but_health_refl|done]. }
  cbn [foldl].
  pose proof (damage_step_entity r u e q t) as Hstep.
  destruct (damage_step cp r (u, e, q) t) as [[u1 e1] q1].
  destruct Hstep as (Hsame & _ & _ & Hu).
  specialize (IH u1 e1 q1). revert IH.
  destruct (foldl (damage_step cp r) (u1, e1, q1) ts) as [[u' e'] q'].
  intros [Hsame' Hu']. split; [by eapply same_but_health_trans|].
  rewrite Hu', Hu. unfold addressed_amounts.
  rewrite (list_filter_iff (λ t0, addressed e1 t0 = true) (λ t0, addressed e t0 = true))
    by (intros; by rewrite (same_but_health_addressed e e1)).
  rewrite filter_cons. case_decide as Ha.
  - rewrite Ha, fmap_cons, orb_true_l, orb_true_r.
    by rewrite bool_decide_eq_true_2.
  - apply not_true_is_false in Ha. by rewrite Ha.
Qed.

Lemma damage_loop_health_ok r targets u e q :
  health_ok e → nonneg_for e targets →
  let '(_, e', _) := damage_loop cp r targets (u, e, q) in
  health_ok e'
  ∧ health_point e'
    = Z.max 0 (health_point e - sum_Z (addressed_amounts e targets)).
Proof.
  unfold damage_loop. revert u e q.
  induction targets as [|t ts IH]; intros u e q Hok Hnn.
  { split; [done|]. destruct Hok. change (sum_Z (addressed_amounts e [])) with 0. lia. }
  cbn [foldl]. apply Forall_cons in Hnn as [Ht Hts].
  pose proof (damage_step_entity r u e q t) as Hsame.
  pose proof (damage_step_health_ok r u e q t Hok Ht) as Hstep.
  destruct (damage_step cp r (u, e, q) t) as [[u1 e1] q1].
  destruct Hsame as (Hsame & _). destruct Hstep as [Hok1 Hh1].
  assert (nonneg_for e1 ts) as Hts1.
  { eapply Forall_impl; [exact Hts|]. intros t0 H0 Ha. apply H0.
    by rewrite <- (same_but_health_addressed e e1). }
  pose proof (sum_addressed_nonneg e1 ts Hts1) as Hsum.
  specialize (IH u1 e1 q1 Hok1 Hts1). revert IH.
  destruct (foldl (damage_step cp r) (u1, e1, q1) ts) as [[u' e'] q'].
  intros [Hok' Hh']. split; [done|].
  rewrite Hh', Hh1. unfold addressed_amounts in *.
  rewrite (list_filter_iff (λ t0, addressed e1 t0 = true) (λ t0, addressed e t0 = true)) in *
    by (intros; by rewrite (same_but_health_addressed e e1)).
  rewrite filter_cons. case_decide as Ha.
  - rewrite Ha, fmap_cons, sum_Z_cons. specialize (Ht Ha). lia.
  - apply not_true_is_false in Ha. by rewrite Ha.
Qed.
End Damage.

(** The handler on a [DealDamageMsg] it has not responded to is the loop
    over the message's tuples. *)
Lemma msg_handler_DealDamage dp cp self q r msg targets reaction :
  head_msg q = Some (r, msg) →
  body msg = DealDamageMsg targets reaction →
  _uuid self ∉ responded_entities msg →
  msg_handler dp cp self q
  = (let '(updated, self1, q1) := damage_loop cp r targets (false, self, q) in
     (Return updated, self1, q1)).
Proof.
  intros Hhead Hbody Hfresh. unfold msg_handler.
  by rewrite Hhead, bool_decide_eq_false_2, Hbody.
Qed.

Lemma addressed_amounts_same e e' targets :
  same_but_health e e' → addressed_amounts e' targets = addressed_amounts e targets.
Proof.
  intros Hsame. unfold addressed_amounts. f_equal.
  apply list_filter_iff. intros t. by rewrite (same_but_health_addressed e e').
Qed.

Lemma fresh_damage_same e e' q :
  same_but_health e e' → fresh_damage e q → fresh_damage e' q.
Proof.
  intros Hsame (r & msg & ts & re & Hhead & Hbody & Hfresh & Hnn).
  exists r, msg, ts, re. split_and!; [done..| |].
  - by rewrite (same_but_health_uuid e e').
  - eapply Forall_impl; [exact Hnn|]. intros t Ht Ha. apply Ht.
    by rewrite <- (same_but_health_addressed e e').
Qed.

Lemma damage_total_same e e' qs :
  same_but_health e e' → damage_total e' qs = damage_total e qs.
Proof.
  intros Hsame. unfold damage_total. f_equal.
  induction qs as [|q qs IH]; [done|].
  rewrite !bind_cons, IH. by rewrite (addressed_amounts_same e e').
Qed.

Lemma damage_total_cons e q qs :
  damage_total e (q :: qs)
  = sum_Z (addressed_amounts e (head_targets q)) + damage_total e qs.
Proof. unfold damage_total. by rewrite bind_cons, sum_Z_app. Qed.

Lemma damage_total_nonneg e qs :
  Forall (fresh_damage e) qs → 0 ≤ damage_total e qs.
Proof.
  induction 1 as [|q qs (r & msg & ts & re & Hhead & Hbody & _ & Hnn) _ IH];
    [done|].
  rewrite damage_total_cons. unfold head_targets. rewrite Hhead, Hbody.
  pose proof (sum_addressed_nonneg e ts Hnn). lia.
Qed.

Section Sequences.
Variable dp cp : Z.

Lemma msg_handler_fresh_damage self q :
  health_ok self → fresh_damage self q →
  let '(o, e, _) := msg_handler dp cp self q in
  (∃ b, o = Return b)
  ∧ same_but_health self e ∧ health_ok e
  ∧ health_point e
    = Z.max 0 (health_point self
               - sum_Z (addressed_amounts self (head_targets q))).
Proof.
  intros Hok (r & msg & ts & re & Hhead & Hbody & Hfresh & Hnn).
  rewrite (msg_handler_DealDamage dp cp self q r msg ts re) by done.
  unfold head_targets. rewrite Hhead, Hbody.
  pose proof (damage_loop_entity cp r ts false self q) as Hsame.
  pose proof (damage_loop_health_ok cp r ts false self q Hok Hnn) as Hh.
  destruct (damage_loop cp r ts (false, self, q)) as [[u e] q'].
  destruct Hsame as [Hsame _]. destruct Hh as [Hok' Hh].
  split_and!; [by eexists|done..].
Qed.

Lemma handle_each_cons self q qs :
  handle_each dp cp self (q :: qs)
  = handle_each dp cp (msg_handler dp cp self q).1.2 qs.
Proof. done. Qed.

Lemma handle_each_health self qs :
  health_ok self → Forall (fresh_damage self) qs →
  let e := handle_each dp cp self qs in
  same_but_health self e ∧ health_ok e
  ∧ health_point e = Z.max 0 (health_point self - damage_total self qs).
Proof.
  revert self. induction qs as [|q qs IH]; intros self Hok Hall.
  { split_and!; [apply same_but_health_refl|done|].
    destruct Hok. change (damage_total self []) with 0. simpl. lia. }
  apply Forall_cons in Hall as [Hq Hqs].
  rewrite handle_each_cons, damage_total_cons.
  pose proof (msg_handler_fresh_damage self q Hok Hq) as Hstep.
  destruct (msg_handler dp cp self q) as [[o e1] q1].
  destruct Hstep as (_ & Hsame & Hok1 & Hh1). cbn [fst snd].
  assert (Forall (fresh_damage e1) qs) as Hqs1.
  { eapply Forall_impl; [exact Hqs|]. intros ?. by apply fresh_damage_same. }
  destruct (IH e1 Hok1 Hqs1) as (Hsame' & Hok' & Hh').
  split_and!; [by eapply same_but_health_trans|done|].
  rewrite Hh', Hh1, (damage_total_same self e1) by done.
  pose proof (damage_total_nonneg self qs Hqs). lia.
Qed.
End Sequences.

(** C2: a living character (health above 0) handles a sequence of
    [DealDamageMsg] events it has not responded to, whose tuples addressed
    to it carry non-negative amounts.  Every call returns; afterwards the
    health is [max 0 (initial - sum of the addressed amounts)] and [alive]
    is exactly [health_point > 0]; the health is non-negative after every
    prefix of the events and, inside an event, after every prefix of its
    tuples. *)
Theorem damage_sequence_health
    (dp cp : Z) (self : CharacterEntity) (qs : list PriorityQueue) :
  0 < health_point self →
  alive self = true →
  Forall (fresh_damage self) qs →
  let e := handle_each dp cp self qs in
  health_point e = Z.max 0 (health_point self - damage_total self qs)
  ∧ alive e = bool_decide (0 < health_point e)
  ∧ (∀ k, 0 ≤ health_point (handle_each dp cp self (take k qs)))
  ∧ (∀ k q, qs !! k = Some q →
       ∃ b, (msg_handler dp cp (handle_each dp cp self (take k qs)) q).1.1
            = Return b)
  ∧ (∀ k q r msg targets reaction j,
       qs !! k = Some q → head_msg q = Some (r, msg) →
       body msg = DealDamageMsg targets reaction →
       0 ≤ health_point
             (damage_loop cp r (take j targets)
                (false, handle_each dp cp self (take k qs), q)).1.2).
Proof.
  intros Hpos Halive Hall.
  assert (health_ok self) as Hok.
  { split; [lia|]. by rewrite Halive, bool_decide_eq_true_2. }
  assert (∀ k, same_but_health self (handle_each dp cp self (take k qs))
               ∧ health_ok (handle_each dp cp self (take k qs))) as Hprefix.
  { intros k.
    destruct (handle_each_health dp cp self (take k qs) Hok) as (? & ? & _);
      [by apply Forall_take|done]. }
  destruct (handle_each_health dp cp self qs Hok Hall) as (_ & [_ Ha] & Hh).
  split_and!; [done|done| | |].
  - intros k. by destruct (Hprefix k) as [_ [? _]].
  - intros k q Hq. destruct (Hprefix k) as [Hsame Hok'].
    assert (fresh_damage (handle_each dp cp self (take k qs)) q) as Hfresh.
    { eapply fresh_damage_same; [done|].
      eapply Forall_lookup_1; [exact Hall|exact Hq]. }
    pose proof (msg_handler_fresh_damage dp cp _ q Hok' Hfresh) as Hstep.
    destruct (msg_handler dp cp _ q) as [[o e1] q1]. by destruct Hstep as [? _].
  - intros k q r msg ts re j Hq Hhead Hbody. destruct (Hprefix k) as [Hsame Hok'].
    pose proof (Forall_lookup_1 _ _ _ _ Hall Hq)
      as (r' & msg' & ts' & re' & Hhead' & Hbody' & _ & Hnn).
    assert (ts' = ts) as -> by congruence.
    assert (nonneg_for (handle_each dp cp self (take k qs)) (take j ts)) as Hnn'.
    { apply Forall_take. eapply Forall_impl; [exact Hnn|]. intros t Ht Hat.
      apply Ht. by rewrite <- (same_but_health_addressed self _ t Hsame). }
    pose proof (damage_loop_health_ok cp r (take j ts) false _ q Hok' Hnn') as Hl.
    destruct (damage_loop cp r (take j ts) _) as [[u e1] q1].
    by destruct Hl as [[? _] _].
Qed.

(** The scenario of two separate events of 2 damage on a character of
    health 10: health ends at 6 and the character is still alive. *)
Lemma damage_sequence_health_witness :
  let kaeya := Sample.entity 7 "Kaeya" Sample.kaeya_card 1 0 true true 10 in
  let hit := Sample.single (Sample.deal 2 [(1%nat, 0%nat, ElementType_NONE, 2)]) in
  health_point (handle_each 3 1 kaeya [hit; hit]) = 6
  ∧ alive (handle_each 3 1 kaeya [hit; hit]) = true.
Proof.
  intros kaeya hit.
  destruct (damage_sequence_health 3 1 kaeya [hit; hit]) as (Hh & Ha & _).
  - simpl. lia.
  - reflexivity.
  - assert (fresh_damage kaeya hit) as Hfresh.
    { exists 0%nat, (Sample.deal 2 [(1%nat, 0%nat, ElementType_NONE, 2)]),
        [(1%nat, 0%nat, ElementType_NONE, 2)], ElementalReactionType_NONE.
      split_and!; [reflexivity|reflexivity|apply not_elem_of_nil|].
      apply Forall_cons. split; [simpl; lia|apply Forall_nil_2]. }
    apply Forall_cons. split; [exact Hfresh|].
    apply Forall_cons. split; [exact Hfresh|apply Forall_nil_2].
  - split; [rewrite Hh|rewrite Ha, Hh]; reflexivity.
Defined.

(** ** Damage to a character that is already dead *)

Section Dead.
Variable cp : Z.

Lemma damage_step_dead r u e q t :
  health_point e = 0 → alive e = false →
  (addressed e t = true → 0 ≤ t.2) →
  damage_step cp r (u, e, q) t
  = if addressed e t
    then (true, e, append_responded r (_uuid e) (put (dead_msg_of cp e) q))
    else (u, e, q).
Proof.
  intros Hhp Halive Hnn. destruct t as [[[tp tpos] el] d].
  unfold damage_step, addressed in *. cbn [fst snd] in *.
  destruct (bool_decide (player_id e = tp) && bool_decide (position e = tpos));
    [|done].
  specialize (Hnn eq_refl).
  replace (health_point e - health_point e `min` d) with 0 by lia.
  assert (set_health_point 0 e = e) as -> by (destruct e; simpl in *; by subst).
  rewrite bool_decide_eq_true_2 by done.
  assert (set_alive false e = e) as -> by (destruct e; simpl in *; by subst).
  done.
Qed.

Lemma damage_loop_dead r targets u e q :
  health_point e = 0 → alive e = false → nonneg_for e targets →
  (r < length (store q))%nat →
  let n := length (addressed_amounts e targets) in
  let '(u', e', q') := damage_loop cp r targets (u, e, q) in
  e' = e
  ∧ length (store q') = (length (store q) + n)%nat
  ∧ queue q' ≡ₚ seq (length (store q)) n ++ queue q
  ∧ (∀ j, (j < n)%nat →
       store q' !! (length (store q) + j)%nat = Some (dead_msg_of cp e))
  ∧ (∀ m, store q !! r = Some m →
       store q' !! r
       = Some (mkMessage (priority m) (sender_id m)
                 (responded_entities m ++ replicate n (_uuid e)) (body m)))
  ∧ (∀ i, i ≠ r → (i < length (store q))%nat → store q' !! i = store q !! i).
Proof.
  intros Hhp Halive. unfold damage_loop. revert u q.
  induction targets as [|t ts IH]; intros u q Hnn Hr.
  { cbn. split_and!; [done|lia|done| | |done].
    - intros j Hj. lia.
    - intros m Hm. rewrite app_nil_r. by destruct m. }
  apply Forall_cons in Hnn as [Ht Hts]. cbn [foldl].
  rewrite damage_step_dead by done.
  unfold addressed_amounts. rewrite filter_cons.
  destruct (addressed e t) eqn:Ha.
  2:{ rewrite decide_False by done. by apply IH. }
  rewrite decide_True by done. rewrite fmap_cons. cbn [length].
  set (q1 := append_responded r (_uuid e) (put (dead_msg_of cp e) q)).
  assert (length (store q1) = S (length (store q))) as Hlen1.
  { unfold q1. rewrite append_responded_length, put_store, length_app. simpl. lia. }
  specialize (IH true q1 Hts ltac:(lia)).
  destruct (foldl (damage_step cp r) (true, e, q1) ts) as [[u' e'] q'].
  unfold addressed_amounts in IH.
  set (n := length (snd <$> filter (λ t0, addressed e t0 = true) ts)) in *.
  destruct IH as (He & Hlen & Hperm & Hnew & Hmsg & Hold).
  split_and!.
  - done.
  - lia.
  - rewrite Hperm, Hlen1. unfold q1. rewrite append_responded_queue.
    rewrite put_queue_perm. cbn [seq].
    rewrite <- Permutation_middle. done.
  - intros [|j] Hj.
    + rewrite Nat.add_0_r, Hold by lia. unfold q1.
      rewrite append_responded_lookup_ne by lia. apply put_lookup_new.
    + rewrite <- Hnew with (j := j) by lia. f_equal. lia.
  - intros m Hm. rewrite (Hmsg (mkMessage (priority m) (sender_id m)
                                  (responded_entities m ++ [_uuid e]) (body m))).
    + cbn. by rewrite <- app_assoc.
    + unfold q1. apply append_responded_lookup. by rewrite put_lookup_old.
  - intros i Hi Hlt. rewrite Hold by lia. unfold q1.
    rewrite append_responded_lookup_ne by done. by apply put_lookup_old.
Qed.
End Dead.

(** C1 (as amended): a dead character (alive false, health 0) that handles
    a [DealDamageMsg] it has not responded to, with non-negative addressed
    amounts, stays exactly as it was (health 0, not alive); the handler has
    no guard on [alive], so it enqueues one new [CharacterDiedMsg] for each
    addressed tuple and appends the entity's id to the event's responded
    list once per addressed tuple.  Nothing leaves the queue and no other
    message object changes. *)
Theorem dead_character_damage
    (dp cp : Z) (self : CharacterEntity) (q : PriorityQueue) (r : ref)
    (msg : Message) (targets : list (PlayerID * CharPos * ElementType * Z))
    (reaction : ElementalReactionType) :
  alive self = false →
  health_point self = 0 →
  head_msg q = Some (r, msg) →
  body msg = DealDamageMsg targets reaction →
  _uuid self ∉ responded_entities msg →
  nonneg_for self targets →
  let n := length (addressed_amounts self targets) in
  ∃ q',
    msg_handler dp cp self q
    = (Return (bool_decide (addressed_amounts self targets ≠ [])), self, q')
    ∧ queue q' ≡ₚ seq (length (store q)) n ++ queue q
    ∧ length (store q') = (length (store q) + n)%nat
    ∧ (∀ j, (j < n)%nat →
         store q' !! (length (store q) + j)%nat = Some (dead_msg_of cp self))
    ∧ store q' !! r
      = Some (mkMessage (priority msg) (sender_id msg)
                (responded_entities msg ++ replicate n (_uuid self)) (body msg))
    ∧ (∀ i, i ≠ r → (i < length (store q))%nat → store q' !! i = store q !! i).
Proof.
  intros Halive Hhp Hhead Hbody Hfresh Hnn n.
  rewrite (msg_handler_DealDamage dp cp self q r msg targets reaction) by done.
  apply head_msg_Some in Hhead as [_ Hr].
  pose proof (lookup_lt_Some _ _ _ Hr) as Hlt.
  pose proof (damage_loop_entity cp r targets false self q) as Hu.
  pose proof (damage_loop_dead cp r targets false self q Hhp Halive Hnn Hlt) as Hq.
  destruct (damage_loop cp r targets (false, self, q)) as [[u e'] q'].
  destruct Hu as [_ ->]. destruct Hq as (-> & Hlen & Hperm & Hnew & Hmsg & Hold).
  exists q'. rewrite orb_false_r. split_and!; [done..| |done]. by apply Hmsg.
Qed.

Lemma dead_character_damage_witness :
  let ayaka :=
    Sample.entity 3 "Kamisato Ayaka" Sample.ayaka_card 1 0 true false 0 in
  let hit := Sample.deal 2 [(1%nat, 0%nat, ElementType_NONE, 5)] in
  ∃ q', msg_handler 3 1 ayaka (Sample.single hit) = (Return true, ayaka, q')
        ∧ queue q' ≡ₚ [1%nat; 0%nat]
        ∧ store q' !! 1%nat = Some (dead_msg_of 1 ayaka).
Proof.
  intros ayaka hit.
  destruct (dead_character_damage 3 1 ayaka (Sample.single hit) 0%nat hit
              [(1%nat, 0%nat, ElementType_NONE, 5)] ElementalReactionType_NONE)
    as (q' & Hrun & Hperm & _ & Hnew & _).
  - reflexivity.
  - reflexivity.
  - reflexivity.
  - reflexivity.
  - apply not_elem_of_nil.
  - apply Forall_cons. split; [simpl; lia|apply Forall_nil_2].
  - exists q'. split_and!; [exact Hrun|exact Hperm|].
    apply (Hnew 0%nat). simpl. lia.
Defined.

(** C1, the claim as stated fails.  First scenario: Ayaka (health 2)
    takes 5 damage and dies, one [CharacterDiedMsg] is enqueued; a second
    event addressed to her afterwards leaves her health at 0 and enqueues
    a further [CharacterDiedMsg].  Second scenario: one event carrying two
    tuples addressed to her produces two [CharacterDiedMsg] for the one
    death.  Third scenario: an event with the negative amount -3 addressed
    to the dead character raises her health to 3 while she stays dead. *)
Lemma dead_character_dies_again :
  let ayaka :=
    Sample.entity 3 "Kamisato Ayaka" Sample.ayaka_card 1 0 true true 2 in
  let hit := Sample.single (Sample.deal 2 [(1%nat, 0%nat, ElementType_NONE, 5)]) in
  let twice :=
    Sample.single (Sample.deal 2 [(1%nat, 0%nat, ElementType_NONE, 5);
                                  (1%nat, 0%nat, ElementType_NONE, 5)]) in
  let heal :=
    Sample.single (Sample.deal 2 [(1%nat, 0%nat, ElementType_NONE, -3)]) in
  let '(_, dead, q1) := msg_handler 3 1 ayaka hit in
  let '(o2, dead2, q2) := msg_handler 3 1 dead hit in
  let '(_, _, q3) := msg_handler 3 1 ayaka twice in
  let '(_, dead4, _) := msg_handler 3 1 dead heal in
  (health_point dead = 0 ∧ alive dead = false ∧ count_CharacterDied q1 = 1%nat)
  ∧ (o2 = Return true ∧ health_point dead2 = 0
     ∧ count_CharacterDied hit = 0%nat ∧ count_CharacterDied q2 = 1%nat)
  ∧ count_CharacterDied q3 = 2%nat
  ∧ (health_point dead4 = 3 ∧ alive dead4 = false).
Proof. vm_compute. done. Qed.

(** ** Changing the active character (lines 109-119) *)

Lemma switched_active p x e :
  player_id e = p → active (switched p x e) = bool_decide (position e = x).
Proof.
  intros Hp. unfold switched. rewrite bool_decide_eq_true_2 by done.
  case_bool_decide; [done|]. by destruct (active e) eqn:Ha.
Qed.

Lemma switched_other p x e : player_id e ≠ p → switched p x e = e.
Proof. intros Hp. unfold switched. by rewrite bool_decide_eq_false_2. Qed.

Lemma switched_only_active p x e :
  switched p x e = set_active (active (switched p x e)) e.
Proof.
  unfold switched. repeat case_bool_decide; try (by destruct e).
  destruct (active e) eqn:Ha; [done|]. destruct e; simpl in *; by subst.
Qed.

Lemma switched_player p x e : player_id (switched p x e) = player_id e.
Proof. by rewrite switched_only_active. Qed.

Section ChangeCharacter.
Variable dp cp : Z.

Lemma msg_handler_ChangeCharacter self q r msg p x :
  head_msg q = Some (r, msg) →
  body msg = ChangeCharacterMsg (p, x) →
  _uuid self ∉ responded_entities msg →
  let relevant :=
    bool_decide (player_id self = p)
    && (bool_decide (position self = x) || active self) in
  msg_handler dp cp self q
  = (Return relevant, switched p x self,
     if relevant then append_responded r (_uuid self) q else q).
Proof.
  intros Hhead Hbody Hfresh. unfold msg_handler, switched.
  rewrite Hhead, bool_decide_eq_false_2, Hbody by done. cbn [fst snd].
  destruct (bool_decide (player_id self = p)); cbn [andb]; [|done].
  destruct (bool_decide (position self = x)) eqn:Hx; cbn [orb]; [done|].
  apply bool_decide_eq_false in Hx.
  rewrite (bool_decide_eq_true_2 (position self ≠ x)) by done. cbn [andb].
  by destruct (active self).
Qed.

(** All the entities of [es] handle one [ChangeCharacterMsg]. *)
Lemma broadcast_ChangeCharacter es q r msg p x :
  head_msg q = Some (r, msg) →
  body msg = ChangeCharacterMsg (p, x) →
  NoDup (_uuid <$> es) →
  Forall (λ e, _uuid e ∉ responded_entities msg) es →
  let '(res, q') := broadcast dp cp es q in
  res.*2 = switched p x <$> es
  ∧ Forall (λ o, ∃ b, o = Return b) res.*1
  ∧ queue q' = queue q
  ∧ ∃ msg', head_msg q' = Some (r, msg') ∧ body msg' = body msg.
Proof.
  revert q msg. induction es as [|e es IH]; intros q msg Hhead Hbody Hnd Hall.
  { cbn. split_and!; [done|done|done|]. by exists msg. }
  cbn [broadcast].
  apply Forall_cons in Hall as [He Hes].
  rewrite fmap_cons in Hnd. apply NoDup_cons in Hnd as [Hne Hnd].
  rewrite (msg_handler_ChangeCharacter e q r msg p x) by done.
  cbv zeta.
  set (relevant := bool_decide (player_id e = p)
                   && (bool_decide (position e = x) || active e)).
  set (q1 := if relevant then append_responded r (_uuid e) q else q).
  assert (queue q1 = queue q) as Hq1 by (unfold q1; by case_match).
  assert (∃ msg1, head_msg q1 = Some (r, msg1) ∧ body msg1 = body msg
                  ∧ Forall (λ e', _uuid e' ∉ responded_entities msg1) es)
    as (msg1 & Hhead1 & Hbody1 & Hes1).
  { unfold q1. case_match; [|by exists msg].
    apply head_msg_Some in Hhead as [Hh Hr].
    eexists. split; [apply head_msg_Some; split; [exact Hh|]|].
    - by apply append_responded_lookup.
    - split; [done|]. cbn [responded_entities].
      apply Forall_forall. intros e' He' Hin.
      apply elem_of_app in Hin as [Hin|Hin].
      + by eapply (proj1 (Forall_forall _ _) Hes e').
      + apply list_elem_of_singleton in Hin. apply Hne.
        rewrite <- Hin. by apply list_elem_of_fmap_2. }
  specialize (IH q1 msg1 Hhead1 ltac:(congruence) Hnd Hes1).
  destruct (broadcast dp cp es q1) as [res q'].
  destruct IH as (Hres & Hret & Hq & msg' & Hhead' & Hbody').
  rewrite !fmap_cons. cbn [fst snd]. split_and!.
  - by rewrite Hres.
  - apply Forall_cons. split; [by eexists|done].
  - congruence.
  - exists msg'. split; [done|congruence].
Qed.
End ChangeCharacter.

(** C3: every entity of [es] (pairwise distinct ids, none of which has
    responded yet) handles a [ChangeCharacterMsg] addressed to player [p]
    at position [x], in list order.  Every call returns and changes at most
    the [active] flag of its entity; afterwards a character of [p] is active
    exactly when it stands at [x], so every character of [p] at another
    position is inactive; characters of another player are unchanged; and
    the event is still the head of the queue, the queue being the same
    after each call. *)
Theorem change_character_broadcast
    (dp cp : Z) (es : list CharacterEntity) (q : PriorityQueue)
    (r : ref) (msg : Message) (p : PlayerID) (x : CharPos) :
  head_msg q = Some (r, msg) →
  body msg = ChangeCharacterMsg (p, x) →
  NoDup (_uuid <$> es) →
  Forall (λ e, _uuid e ∉ responded_entities msg) es →
  let '(res, q') := broadcast dp cp es q in
  length res = length es
  ∧ (∀ i e o e', es !! i = Some e → res !! i = Some (o, e') →
       (∃ b, o = Return b)
       ∧ e' = set_active (active e') e
       ∧ (player_id e = p → (active e' = true ↔ position e = x))
       ∧ (player_id e = p → position e ≠ x → active e' = false)
       ∧ (player_id e ≠ p → e' = e))
  ∧ queue q' = queue q
  ∧ (∃ msg', head_msg q' = Some (r, msg')
             ∧ body msg' = ChangeCharacterMsg (p, x))
  ∧ (∀ k, queue (broadcast dp cp (take k es) q).2 = queue q).
Proof.
  intros Hhead Hbody Hnd Hall.
  assert (∀ k, queue (broadcast dp cp (take k es) q).2 = queue q) as Hsteps.
  { intros k.
    pose proof (broadcast_ChangeCharacter dp cp (take k es) q r msg p x
                  Hhead Hbody) as Hk.
    destruct (broadcast dp cp (take k es) q) as [res q'].
    destruct Hk as (_ & _ & Hq & _); [|by apply Forall_take|done].
    rewrite fmap_take. eapply sublist_NoDup; [exact Hnd|apply sublist_take]. }
  pose proof (broadcast_ChangeCharacter dp cp es q r msg p x
                Hhead Hbody Hnd Hall) as H.
  destruct (broadcast dp cp es q) as [res q'].
  destruct H as (Hres & Hret & Hq & msg' & Hhead' & Hbody').
  split_and!; [| |done| |done].
  - by rewrite <- (length_fmap snd), Hres, length_fmap.
  - intros i e o e' He Hr.
    assert (e' = switched p x e) as ->.
    { assert (res.*2 !! i = Some e') as Hi by (by rewrite list_lookup_fmap, Hr).
      rewrite Hres, list_lookup_fmap, He in Hi. by inversion Hi. }
    split_and!.
    + eapply (proj1 (Forall_forall _ _) Hret o).
      apply list_elem_of_lookup. exists i. by rewrite list_lookup_fmap, Hr.
    + apply switched_only_active.
    + intros Hp. rewrite switched_active by done.
      split; [apply bool_decide_eq_true_1|apply bool_decide_eq_true_2].
    + intros Hp Hx. rewrite switched_active by done.
      by apply bool_decide_eq_false_2.
    + apply switched_other.
  - exists msg'. split; [done|congruence].
Qed.

(** Player 1 switches from position 0 to position 1; player 2 has an
    active character at position 0. *)
Lemma change_character_broadcast_witness :
  let ayaka := Sample.entity 3 "Kamisato Ayaka" Sample.ayaka_card 1 0 true true 10 in
  let kaeya := Sample.entity 7 "Kaeya" Sample.kaeya_card 1 1 false true 10 in
  let rival := Sample.entity 9 "Kaeya" Sample.kaeya_card 2 0 true true 10 in
  let q := Sample.single (Sample.change 1 (1%nat, 1%nat)) in
  let '(res, q') := broadcast 3 1 [ayaka; kaeya; rival] q in
  queue q' = queue q ∧ length res = 3%nat.
Proof.
  intros ayaka kaeya rival q.
  pose proof (change_character_broadcast 3 1 [ayaka; kaeya; rival] q 0%nat
                (Sample.change 1 (1%nat, 1%nat)) 1%nat 1%nat) as H.
  destruct (broadcast 3 1 [ayaka; kaeya; rival] q) as [res q'].
  destruct H as (Hlen & _ & Hq & _).
  - reflexivity.
  - reflexivity.
  - apply (bool_decide_unpack _). vm_compute. exact I.
  - repeat (apply Forall_cons; split; [apply not_elem_of_nil|]).
    apply Forall_nil_2.
  - split; [exact Hq|exact Hlen].
Defined.

(** ** The one-active-character predicate *)

Lemma count_active_cons p e es :
  count_active p (e :: es)
  = ((if bool_decide (player_id e = p ∧ active e = true) then 1 else 0)
     + count_active p es)%nat.
Proof.
  unfold count_active. rewrite filter_cons.
  case_decide; [by rewrite bool_decide_eq_true_2|by rewrite bool_decide_eq_false_2].
Qed.

Lemma count_active_switched p x es :
  count_active p (switched p x <$> es)
  = length (filter (λ e, player_id e = p ∧ position e = x) es).
Proof.
  induction es as [|e es IH]; [done|].
  rewrite fmap_cons, count_active_cons, IH, filter_cons, switched_player.
  destruct (decide (player_id e = p)) as [Hp|Hp].
  - rewrite switched_active by done.
    destruct (decide (position e = x)) as [Hx|Hx].
    + rewrite decide_True by done.
      by rewrite bool_decide_eq_true_2
        by (split; [done|by apply bool_decide_eq_true_2]).
    + rewrite decide_False by (by intros [??]).
      rewrite bool_decide_eq_false_2; [done|].
      intros [_ Hb]. by apply bool_decide_eq_true_1 in Hb.
  - rewrite decide_False by (by intros [??]).
    by rewrite bool_decide_eq_false_2 by (by intros [??]).
Qed.

Lemma count_active_switched_other p p' x es :
  p' ≠ p → count_active p' (switched p x <$> es) = count_active p' es.
Proof.
  intros Hne. induction es as [|e es IH]; [done|].
  rewrite fmap_cons, !count_active_cons, IH. f_equal.
  destruct (decide (player_id e = p)) as [Hp|Hp].
  - rewrite !bool_decide_eq_false_2; [done| |].
    + intros [? _]. congruence.
    + rewrite switched_player. intros [? _]. congruence.
  - by rewrite switched_other.
Qed.

Lemma msg_handler_keeps_active dp cp self q :
  (∀ r msg x, head_msg q = Some (r, msg) →
     body msg ≠ ChangeCharacterMsg (player_id self, x)) →
  active (msg_handler dp cp self q).1.2 = active self.
Proof.
  intros Hno. unfold msg_handler.
  destruct (head_msg q) as [[r msg]|] eqn:Hhead; [|done].
  case_bool_decide; [done|].
  destruct (body msg) as [upos nm tgts|[tp tx]|targets re| |] eqn:Hbody;
    cbn [fst snd]; try done.
  - case_bool_decide; [|done]. by destruct tgts as [|[??] ?].
  - case_bool_decide as Hp; [|done].
    exfalso. apply (Hno r msg tx eq_refl). by rewrite Hp.
  - pose proof (damage_loop_entity cp r targets false self q) as Hl.
    destruct (damage_loop cp r targets (false, self, q)) as [[u e] q'].
    destruct Hl as [Hsame _]. by apply same_but_health_active.
Qed.

(** C6 (as amended): the number of active characters of a player is
    governed as follows.  A freshly constructed character is inactive.  A
    handler call changes its entity's [active] flag only when the head is a
    [ChangeCharacterMsg] addressed to the entity's own player.  Once all the
    entities of [es] (distinct ids, none has responded) have handled a
    [ChangeCharacterMsg] for player [p] at position [x], the active
    characters of [p] are exactly its characters at [x] (one active
    character when [p] has one character there) and the count of every
    other player is what it was. *)
Theorem active_flag_discipline (dp cp : Z) :
  (∀ n2i cards uuid nm p pos e,
     CharacterEntity_init n2i cards uuid nm p pos = Return e →
     active e = false)
  ∧ (∀ self q,
       (∀ r msg x, head_msg q = Some (r, msg) →
          body msg ≠ ChangeCharacterMsg (player_id self, x)) →
       active (msg_handler dp cp self q).1.2 = active self)
  ∧ (∀ es q r msg p x,
       head_msg q = Some (r, msg) →
       body msg = ChangeCharacterMsg (p, x) →
       NoDup (_uuid <$> es) →
       Forall (λ e, _uuid e ∉ responded_entities msg) es →
       let after := (broadcast dp cp es q).1.*2 in
       count_active p after
       = length (filter (λ e, player_id e = p ∧ position e = x) es)
       ∧ ∀ p', p' ≠ p → count_active p' after = count_active p' es).
Proof.
  split_and!.
  - intros n2i cards uuid nm p pos e. unfold CharacterEntity_init.
    destruct (n2i !! nm) as [i|]; [|done].
    destruct (cards !! i) as [card|]; [|done]. by intros [= <-].
  - apply msg_handler_keeps_active.
  - intros es q r msg p x Hhead Hbody Hnd Hall.
    pose proof (broadcast_ChangeCharacter dp cp es q r msg p x
                  Hhead Hbody Hnd Hall) as H.
    destruct (broadcast dp cp es q) as [res q']. destruct H as (Hres & _).
    cbn [fst]. rewrite Hres. split.
    + apply count_active_switched.
    + intros p' Hp'. by apply count_active_switched_other.
Qed.

(** After the switch of player 1 from position 0 to position 1, player 1
    and player 2 have one active character each. *)
Lemma active_flag_discipline_witness :
  let ayaka := Sample.entity 3 "Kamisato Ayaka" Sample.ayaka_card 1 0 true true 10 in
  let kaeya := Sample.entity 7 "Kaeya" Sample.kaeya_card 1 1 false true 10 in
  let rival := Sample.entity 9 "Kaeya" Sample.kaeya_card 2 0 true true 10 in
  let q := Sample.single (Sample.change 1 (1%nat, 1%nat)) in
  let after := (broadcast 3 1 [ayaka; kaeya; rival] q).1.*2 in
  count_active 1 after = 1%nat ∧ count_active 2 after = 1%nat.
Proof.
  intros ayaka kaeya rival q after.
  destruct (active_flag_discipline 3 1) as (_ & _ & Hswitch).
  destruct (Hswitch [ayaka; kaeya; rival] q 0%nat
              (Sample.change 1 (1%nat, 1%nat)) 1%nat 1%nat) as [Hp Hother].
  - reflexivity.
  - reflexivity.
  - apply (bool_decide_unpack _). vm_compute. exact I.
  - repeat (apply Forall_cons; split; [apply not_elem_of_nil|]).
    apply Forall_nil_2.
  - split.
    + etrans; [exact Hp|]. reflexivity.
    + etrans; [apply (Hother 2%nat); lia|]. reflexivity.
Defined.

(** C6, the claim as stated fails.  Two freshly constructed characters of
    player 1 are both inactive (no active character).  With Ayaka active
    at position 0 and a switch to position 1 at the head of the queue,
    player 1 has two active characters once Kaeya alone has handled the
    event, and none once Ayaka alone has. *)
Lemma one_active_per_player_broken :
  (match CharacterEntity_init Sample.NAME2ID Sample.CARDS 3 "Kamisato Ayaka" 1 0,
         CharacterEntity_init Sample.NAME2ID Sample.CARDS 7 "Kaeya" 1 1 with
   | Return a, Return k => count_active 1 [a; k] = 0%nat
   | _, _ => False
   end)
  ∧ (let ayaka :=
       Sample.entity 3 "Kamisato Ayaka" Sample.ayaka_card 1 0 true true 10 in
     let kaeya := Sample.entity 7 "Kaeya" Sample.kaeya_card 1 1 false true 10 in
     let q := Sample.single (Sample.change 1 (1%nat, 1%nat)) in
     let '(_, kaeya', _) := msg_handler 3 1 kaeya q in
     let '(_, ayaka', _) := msg_handler 3 1 ayaka q in
     count_active 1 [ayaka; kaeya] = 1%nat
     ∧ count_active 1 [ayaka; kaeya'] = 2%nat
     ∧ count_active 1 [ayaka'; kaeya] = 0%nat).
Proof. vm_compute. done. Qed.

(** ** Using a skill (lines 95-108) *)

Section UseSkill.
Variable dp cp : Z.

Lemma msg_handler_UseSkill self q r msg upos nm tgts :
  head_msg q = Some (r, msg) →
  body msg = UseSkillMsg upos nm tgts →
  _uuid self ∉ responded_entities msg →
  msg_handler dp cp self q
  = if bool_decide (upos = position self) then
      match tgts with
      | [] => (Raise IndexError, self, get q)
      | t :: _ => (Return true, self, put (damage_msg_of dp self t) (get q))
      end
    else (Return false, self, q).
Proof.
  intros Hhead Hbody Hfresh. unfold msg_handler.
  rewrite Hhead, bool_decide_eq_false_2, Hbody by done.
  case_bool_decide; [|done]. by destruct tgts as [|[??] ?].
Qed.
End UseSkill.

(** C4 (as amended): for a [UseSkillMsg] at the head of the queue that
    names at least one target, an entity that has not responded to it
    removes it exactly when the entity's position equals the event's user
    position.  That call reports an update, takes just the head off the
    queue and enqueues exactly one new message object, a [DealDamageMsg];
    the removed event is then out of the queue for every other entity.  An
    entity at another position leaves itself and the queue untouched. *)
Theorem use_skill_consumed_once
    (dp cp : Z) (self : CharacterEntity) (q : PriorityQueue) (r : ref)
    (msg : Message) (upos : CharPos) (nm : string)
    (t : PlayerID * CharPos) (ts : list (PlayerID * CharPos)) :
  head_msg q = Some (r, msg) →
  body msg = UseSkillMsg upos nm (t :: ts) →
  _uuid self ∉ responded_entities msg →
  ∃ rest,
    queue q = r :: rest
    ∧ (position self = upos →
         ∃ q' new,
           msg_handler dp cp self q = (Return true, self, q')
           ∧ store q' = store q ++ [new]
           ∧ is_DealDamage new = true
           ∧ queue q' ≡ₚ length (store q) :: rest
           ∧ (r ∉ rest → r ∉ queue q'))
    ∧ (position self ≠ upos →
         msg_handler dp cp self q = (Return false, self, q)).
Proof.
  intros Hhead Hbody Hfresh.
  rewrite (msg_handler_UseSkill dp cp self q r msg upos nm (t :: ts)) by done.
  apply head_msg_Some in Hhead as [Hh Hr].
  destruct (queue q) as [|r' rest] eqn:Hq; [done|]. injection Hh as ->.
  exists rest. split_and!; [done| |].
  - intros Hpos. rewrite bool_decide_eq_true_2 by done.
    eexists _, (damage_msg_of dp self t). split_and!; [done|done|done| |].
    + rewrite put_queue_perm. unfold get. cbn [store queue]. by rewrite Hq.
    + intros Hrest Hin. rewrite put_queue_perm in Hin.
      unfold get in Hin. cbn [store queue] in Hin. rewrite Hq in Hin.
      cbn [tail] in Hin. apply elem_of_cons in Hin as [->|Hin]; [|done].
      apply lookup_lt_Some in Hr. lia.
  - intros Hpos. by rewrite bool_decide_eq_false_2.
Qed.

Lemma use_skill_consumed_once_witness :
  let kaeya := Sample.entity 7 "Kaeya" Sample.kaeya_card 1 0 true true 10 in
  let q := Sample.single (Sample.use_skill 1 0 [(2%nat, 0%nat)]) in
  ∃ q' new, msg_handler 3 1 kaeya q = (Return true, kaeya, q')
            ∧ store q' = store q ++ [new] ∧ is_DealDamage new = true
            ∧ queue q' ≡ₚ [1%nat].
Proof.
  intros kaeya q.
  destruct (use_skill_consumed_once 3 1 kaeya q 0%nat
              (Sample.use_skill 1 0 [(2%nat, 0%nat)]) 0%nat
              "Kamisato Art: Kabuki" (2%nat, 0%nat) [])
    as (rest & Hq & Hat & _).
  - reflexivity.
  - reflexivity.
  - apply not_elem_of_nil.
  - destruct (Hat eq_refl) as (q' & new & Hrun & Hstore & Hkind & Hperm & _).
    injection Hq as <-.
    exists q', new. split_and!; [exact Hrun|exact Hstore|exact Hkind|exact Hperm].
Defined.

(** C4, the claim as stated fails: a [UseSkillMsg] whose target list is
    empty is taken off the queue by the character at the user position,
    the read of [skill_target[0]] raises, and no [DealDamageMsg] is
    enqueued. *)
Lemma use_skill_without_target :
  let kaeya := Sample.entity 7 "Kaeya" Sample.kaeya_card 1 0 true true 10 in
  let q := Sample.single (Sample.use_skill 1 0 []) in
  msg_handler 3 1 kaeya q
  = (Raise IndexError, kaeya, {| store := store q; queue := [] |}).
Proof. reflexivity. Qed.

(** C5 (as amended): the [DealDamageMsg] pushed by the character that
    consumes a [UseSkillMsg] carries exactly one damage tuple, built from
    the first entry of the event's target list with element [NONE] and
    amount 2, and its reaction is [NONE]; the further entries of the target
    list are not read. *)
Theorem use_skill_damage_content
    (dp cp : Z) (self : CharacterEntity) (q : PriorityQueue) (r : ref)
    (msg : Message) (upos : CharPos) (nm : string)
    (t : PlayerID * CharPos) (ts : list (PlayerID * CharPos)) :
  head_msg q = Some (r, msg) →
  body msg = UseSkillMsg upos nm (t :: ts) →
  _uuid self ∉ responded_entities msg →
  position self = upos →
  ∃ q' new,
    msg_handler dp cp self q = (Return true, self, q')
    ∧ store q' = store q ++ [new]
    ∧ body new = DealDamageMsg [(t.1, t.2, ElementType_NONE, 2)]
                   ElementalReactionType_NONE
    ∧ responded_entities new = [].
Proof.
  intros Hhead Hbody Hfresh Hpos.
  rewrite (msg_handler_UseSkill dp cp self q r msg upos nm (t :: ts)) by done.
  rewrite bool_decide_eq_true_2 by done.
  by eexists _, (damage_msg_of dp self t).
Qed.

Lemma use_skill_damage_content_witness :
  let kaeya := Sample.entity 7 "Kaeya" Sample.kaeya_card 1 0 true true 10 in
  let q := Sample.single (Sample.use_skill 1 0 [(2%nat, 0%nat); (2%nat, 1%nat)]) in
  ∃ q' new, msg_handler 3 1 kaeya q = (Return true, kaeya, q')
            ∧ store q' = store q ++ [new]
            ∧ body new = DealDamageMsg [(2%nat, 0%nat, ElementType_NONE, 2)]
                           ElementalReactionType_NONE.
Proof.
  intros kaeya q.
  destruct (use_skill_damage_content 3 1 kaeya q 0%nat
              (Sample.use_skill 1 0 [(2%nat, 0%nat); (2%nat, 1%nat)]) 0%nat
              "Kamisato Art: Kabuki" (2%nat, 0%nat) [(2%nat, 1%nat)])
    as (q' & new & Hrun & Hstore & Hbody & _).
  - reflexivity.
  - reflexivity.
  - apply not_elem_of_nil.
  - reflexivity.
  - exists q', new. split_and!; [exact Hrun|exact Hstore|exact Hbody].
Defined.

(** C5, the claim as stated fails: with two resolved targets, the only
    message in the queue afterwards is a [DealDamageMsg] with the single
    tuple of the first target; the second target, (2, 1), has no tuple. *)
Lemma use_skill_drops_second_target :
  let kaeya := Sample.entity 7 "Kaeya" Sample.kaeya_card 1 0 true true 10 in
  let q := Sample.single (Sample.use_skill 1 0 [(2%nat, 0%nat); (2%nat, 1%nat)]) in
  body <$> queued (msg_handler 3 1 kaeya q).2
  = [DealDamageMsg [(2%nat, 0%nat, ElementType_NONE, 2)]
       ElementalReactionType_NONE].
Proof. reflexivity. Qed.

(** C9 (as amended): the relevance test of a [UseSkillMsg] compares the
    position only.  For an event that names at least one target, every
    entity that has not responded and whose position equals the user
    position consumes it, whoever sent the event and whichever player owns
    the entity, and the [DealDamageMsg] it enqueues has the entity's own
    [player_id] as [sender_id]. *)
Theorem use_skill_ignores_player
    (dp cp : Z) (self : CharacterEntity) (q : PriorityQueue) (r : ref)
    (msg : Message) (upos : CharPos) (nm : string)
    (t : PlayerID * CharPos) (ts : list (PlayerID * CharPos)) :
  head_msg q = Some (r, msg) →
  body msg = UseSkillMsg upos nm (t :: ts) →
  _uuid self ∉ responded_entities msg →
  position self = upos →
  ∃ q' new,
    msg_handler dp cp self q = (Return true, self, q')
    ∧ queue q' ≡ₚ length (store q) :: tail (queue q)
    ∧ store q' !! length (store q) = Some new
    ∧ is_DealDamage new = true
    ∧ sender_id new = player_id self.
Proof.
  intros Hhead Hbody Hfresh Hpos.
  rewrite (msg_handler_UseSkill dp cp self q r msg upos nm (t :: ts)) by done.
  rewrite bool_decide_eq_true_2 by done.
  eexists _, (damage_msg_of dp self t). split_and!; [done| | |done|done].
  - apply (put_queue_perm _ (get q)).
  - apply (put_lookup_new _ (get q)).
Qed.

(** The event is sent by player 1; the entity at position 0 that handles
    it belongs to player 2. *)
Lemma use_skill_ignores_player_witness :
  let rival := Sample.entity 9 "Kaeya" Sample.kaeya_card 2 0 true true 10 in
  let q := Sample.single (Sample.use_skill 1 0 [(2%nat, 0%nat)]) in
  ∃ q' new, msg_handler 3 1 rival q = (Return true, rival, q')
            ∧ store q' !! 1%nat = Some new
            ∧ sender_id new = 2%nat.
Proof.
  intros rival q.
  destruct (use_skill_ignores_player 3 1 rival q 0%nat
              (Sample.use_skill 1 0 [(2%nat, 0%nat)]) 0%nat
              "Kamisato Art: Kabuki" (2%nat, 0%nat) [])
    as (q' & new & Hrun & _ & Hnew & _ & Hsender).
  - reflexivity.
  - reflexivity.
  - apply not_elem_of_nil.
  - reflexivity.
  - exists q', new. split_and!; [exact Hrun|exact Hnew|exact Hsender].
Defined.

(** C9, the claim as stated fails: player 2's character at position 0
    takes player 1's [UseSkillMsg] with an empty target list off the queue
    and raises; the store holds no new message and the queue only keeps
    the message that was behind the event. *)
Lemma use_skill_opponent_without_target :
  let rival := Sample.entity 9 "Kaeya" Sample.kaeya_card 2 0 true true 10 in
  let q := {| store := [Sample.use_skill 1 0 [];
                        Sample.change 1 (1%nat, 1%nat)];
              queue := [0%nat; 1%nat] |} in
  msg_handler 3 1 rival q
  = (Raise IndexError, rival, {| store := store q; queue := [1%nat] |}).
Proof. reflexivity. Qed.


(** * Further properties of the handler *)

(** The guard of lines 92-93, for use below. *)
Lemma msg_handler_responded dp cp self q r msg :
  head_msg q = Some (r, msg) →
  _uuid self ∈ responded_entities msg →
  msg_handler dp cp self q = (Return false, self, q).
Proof.
  intros Hhead Hin. unfold msg_handler.
  by rewrite Hhead, bool_decide_eq_true_2.
Qed.

(** ** The damage loop in general *)

Lemma hit_max hp d : hit hp d = Z.max 0 (hp - d).
Proof. unfold hit. lia. Qed.

Lemma same_but_health_dead_msg cp e e' :
  same_but_health e e' → dead_msg_of cp e' = dead_msg_of cp e.
Proof. intros ->. done. Qed.

Lemma same_but_health_set_health h e : same_but_health e (set_health_point h e).
Proof. by destruct e. Qed.

Lemma same_but_health_set_alive b h e :
  same_but_health e (set_alive b (set_health_point h e)).
Proof. by destruct e. Qed.

Lemma insert_by_priority_head s r l :
  head (insert_by_priority s r l) = Some r
  ∨ head (insert_by_priority s r l) = head l.
Proof. destruct l as [|r' l]; simpl; [by left|]. case_bool_decide; [by left|by right]. Qed.

Lemma damage_step_cases cp r u e q t :
  damage_step cp r (u, e, q) t
  = if addressed e t then
      if bool_decide (hit (health_point e) t.2 = 0) then
        (true, set_alive false (set_health_point (hit (health_point e) t.2) e),
         append_responded r (_uuid e) (put (dead_msg_of cp e) q))
      else
        (true, set_health_point (hit (health_point e) t.2) e,
         append_responded r (_uuid e) q)
    else (u, e, q).
Proof.
  destruct t as [[[tp tpos] el] d]. unfold damage_step, addressed, hit.
  cbn [fst snd].
  destruct (bool_decide (player_id e = tp) && bool_decide (position e = tpos));
    [|done].
  cbn [health_point set_health_point]. by case_bool_decide.
Qed.

Lemma damage_loop_no_addressed cp r targets u e q :
  addressed_amounts e targets = [] →
  damage_loop cp r targets (u, e, q) = (u, e, q).
Proof.
  unfold damage_loop, addressed_amounts.
  induction targets as [|t ts IH]; [done|].
  rewrite filter_cons. case_decide as Ha; [done|]. intros Hts.
  cbn [foldl]. rewrite damage_step_cases.
  apply not_true_is_false in Ha. rewrite Ha. by apply IH.
Qed.

Section DamageGeneral.
Variable cp : Z.
Variable r : ref.
Variable e0 : CharacterEntity.

(** The loop started from any later state [e] of the entity [e0]. *)
Lemma damage_loop_from targets u e q :
  same_but_health e0 e →
  (r < length (store q))%nat →
  let amounts := addressed_amounts e0 targets in
  let n := deaths (health_point e) amounts in
  let '(u', e', q') := damage_loop cp r targets (u, e, q) in
  health_point e' = foldl hit (health_point e) amounts
  ∧ alive e' = (if bool_decide (n = 0%nat) then alive e else false)
  ∧ length (store q') = (length (store q) + n)%nat
  ∧ queue q' ≡ₚ seq (length (store q)) n ++ queue q
  ∧ (∀ j, (j < n)%nat →
       store q' !! (length (store q) + j)%nat = Some (dead_msg_of cp e0))
  ∧ (∀ m, store q !! r = Some m →
       store q' !! r
       = Some (mkMessage (priority m) (sender_id m)
                 (responded_entities m ++ replicate (length amounts) (_uuid e0))
                 (body m)))
  ∧ (∀ i, i ≠ r → (i < length (store q))%nat → store q' !! i = store q !! i)
  ∧ (head (queue q') = head (queue q)
     ∨ ∃ j, (j < n)%nat ∧ head (queue q') = Some (length (store q) + j)%nat).
Proof.
  unfold damage_loop. revert u e q.
  induction targets as [|t ts IH]; intros u e q Hsame Hr.
  { cbn. split_and!; [done|done|lia|done| | |done|by left].
    - intros j Hj. lia.
    - intros m Hm. rewrite app_nil_r. by destruct m. }
  cbn [foldl]. rewrite damage_step_cases.
  rewrite (same_but_health_addressed e0 e t Hsame).
  unfold addressed_amounts. rewrite filter_cons.
  destruct (addressed e0 t) eqn:Ha.
  2:{ rewrite decide_False by done. by apply IH. }
  rewrite decide_True by done. rewrite fmap_cons. cbn [length foldl deaths].
  rewrite (same_but_health_uuid e0 e Hsame), (same_but_health_dead_msg cp e0 e Hsame).
  set (h := hit (health_point e) t.2).
  set (amounts := snd <$> filter (λ t0, addressed e0 t0 = true) ts).
  destruct (bool_decide (h = 0)) eqn:Hh.
  - (* this tuple leaves the health at 0 *)
    set (e1 := set_alive false (set_health_point h e)).
    set (q1 := append_responded r (_uuid e0) (put (dead_msg_of cp e0) q)).
    assert (same_but_health e0 e1) as Hsame1.
    { eapply same_but_health_trans; [exact Hsame|apply same_but_health_set_alive]. }
    assert (length (store q1) = S (length (store q))) as Hlen1.
    { unfold q1. rewrite append_responded_length, put_store, length_app. simpl. lia. }
    assert (head (queue q1) = Some (length (store q))
            ∨ head (queue q1) = head (queue q)) as Hhead1.
    { unfold q1. rewrite append_responded_queue. apply insert_by_priority_head. }
    specialize (IH true e1 q1 Hsame1 ltac:(lia)).
    destruct (foldl (damage_step cp r) (true, e1, q1) ts) as [[u' e'] q'].
    unfold addressed_amounts in IH. fold amounts in IH.
    change (health_point e1) with h in IH.
    destruct IH as (Hhp & Halive & Hlen & Hperm & Hnew & Hmsg & Hold & Hhead).
    split_and!.
    + done.
    + rewrite Halive. change (alive e1) with false.
      rewrite (bool_decide_eq_false_2 ((1 + deaths h amounts)%nat = 0%nat)) by lia.
      by destruct (bool_decide (deaths h amounts = 0%nat)).
    + lia.
    + rewrite Hperm, Hlen1. unfold q1. rewrite append_responded_queue.
      rewrite put_queue_perm. cbn [Nat.add seq].
      by rewrite <- Permutation_middle.
    + intros [|j] Hj.
      * rewrite Nat.add_0_r, Hold by lia. unfold q1.
        rewrite append_responded_lookup_ne by lia. apply put_lookup_new.
      * rewrite <- Hnew with (j := j) by lia. f_equal. lia.
    + intros m Hm.
      rewrite (Hmsg (mkMessage (priority m) (sender_id m)
                       (responded_entities m ++ [_uuid e0]) (body m))).
      * cbn. by rewrite <- app_assoc.
      * unfold q1. apply append_responded_lookup. by rewrite put_lookup_old.
    + intros i Hi Hlt. rewrite Hold by lia. unfold q1.
      rewrite append_responded_lookup_ne by done. by apply put_lookup_old.
    + destruct Hhead as [Hhead|(j & Hj & Hhead)].
      * destruct Hhead1 as [Hhead1|Hhead1].
        -- right. exists 0%nat. split; [lia|]. by rewrite Hhead, Hhead1, Nat.add_0_r.
        -- left. congruence.
      * right. exists (S j). split; [lia|]. rewrite Hhead. f_equal. lia.
  - (* the health stays away from 0 *)
    set (e1 := set_health_point h e).
    set (q1 := append_responded r (_uuid e0) q).
    assert (same_but_health e0 e1) as Hsame1.
    { eapply same_but_health_trans; [exact Hsame|apply same_but_health_set_health]. }
    assert (length (store q1) = length (store q)) as Hlen1
      by apply append_responded_length.
    specialize (IH true e1 q1 Hsame1 ltac:(lia)).
    destruct (foldl (damage_step cp r) (true, e1, q1) ts) as [[u' e'] q'].
    unfold addressed_amounts in IH. fold amounts in IH.
    change (health_point e1) with h in IH. rewrite Hlen1 in IH.
    change (queue q1) with (queue q) in IH.
    destruct IH as (Hhp & Halive & Hlen & Hperm & Hnew & Hmsg & Hold & Hhead).
    cbn [Nat.add]. split_and!; [done|done|done|done|done| | |done].
    + intros m Hm.
      rewrite (Hmsg (mkMessage (priority m) (sender_id m)
                       (responded_entities m ++ [_uuid e0]) (body m))).
      * cbn. by rewrite <- app_assoc.
      * unfold q1. by apply append_responded_lookup.
    + intros i Hi Hlt. rewrite Hold by lia. unfold q1.
      by rewrite append_responded_lookup_ne.
Qed.
End DamageGeneral.

(** A call on a [DealDamageMsg] the entity has not responded to, with no
    condition on the amounts. *)
Lemma msg_handler_DealDamage_run dp cp self q r msg targets reaction :
  head_msg q = Some (r, msg) →
  body msg = DealDamageMsg targets reaction →
  _uuid self ∉ responded_entities msg →
  let amounts := addressed_amounts self targets in
  let n := deaths (health_point self) amounts in
  ∃ e' q',
    msg_handler dp cp self q = (Return (bool_decide (amounts ≠ [])), e', q')
    ∧ same_but_health self e'
    ∧ health_point e' = foldl hit (health_point self) amounts
    ∧ alive e' = (if bool_decide (n = 0%nat) then alive self else false)
    ∧ length (store q') = (length (store q) + n)%nat
    ∧ queue q' ≡ₚ seq (length (store q)) n ++ queue q
    ∧ (∀ j, (j < n)%nat →
         store q' !! (length (store q) + j)%nat = Some (dead_msg_of cp self))
    ∧ store q' !! r
      = Some (mkMessage (priority msg) (sender_id msg)
                (responded_entities msg ++ replicate (length amounts) (_uuid self))
                (body msg))
    ∧ (∀ i, i ≠ r → (i < length (store q))%nat → store q' !! i = store q !! i)
    ∧ (head (queue q') = Some r
       ∨ ∃ j, (j < n)%nat ∧ head (queue q') = Some (length (store q) + j)%nat).
Proof.
  intros Hhead Hbody Hfresh amounts n.
  rewrite (msg_handler_DealDamage dp cp self q r msg targets reaction) by done.
  apply head_msg_Some in Hhead as [Hh Hr].
  pose proof (lookup_lt_Some _ _ _ Hr) as Hlt.
  pose proof (damage_loop_entity cp r targets false self q) as Hu.
  pose proof (damage_loop_from cp r self targets false self q
                (same_but_health_refl self) Hlt) as Hq.
  destruct (damage_loop cp r targets (false, self, q)) as [[u e'] q'].
  destruct Hu as [Hsame ->].
  destruct Hq as (Hhp & Halive & Hlen & Hperm & Hnew & Hmsg & Hold & Hhead').
  exists e', q'. rewrite orb_false_r, <- Hh.
  split_and!; [done..|by apply Hmsg|done|done].
Qed.

Lemma msg_handler_no_branch dp cp self q r msg :
  head_msg q = Some (r, msg) →
  (body msg = OtherMsg ∨ ∃ target, body msg = CharacterDiedMsg target) →
  msg_handler dp cp self q = (Return false, self, q).
Proof.
  intros Hhead Hbody. unfold msg_handler. rewrite Hhead.
  case_bool_decide; [done|]. by destruct Hbody as [->|[? ->]].
Qed.

Lemma same_but_state_of_health e e' : same_but_health e e' → same_but_state e e'.
Proof. unfold same_but_state. intros ->. done. Qed.

Lemma same_but_state_refl e : same_but_state e e.
Proof. by destruct e. Qed.

Lemma switched_not_relevant p x e :
  bool_decide (player_id e = p) && (bool_decide (position e = x) || active e)
  = false →
  switched p x e = e.
Proof.
  unfold switched. destruct (bool_decide (player_id e = p)); [|done].
  destruct (bool_decide (position e = x)); [done|]. by destruct (active e).
Qed.

(** ** What a call may change *)

Lemma msg_handler_same_but_state dp cp self q :
  same_but_state self (msg_handler dp cp self q).1.2.
Proof.
  destruct (head_msg q) as [[r msg]|] eqn:Hhead.
  2:{ unfold msg_handler. rewrite Hhead. apply same_but_state_refl. }
  destruct (decide (_uuid self ∈ responded_entities msg)) as [Hin|Hfresh].
  { rewrite (msg_handler_responded dp cp self q r msg) by done.
    apply same_but_state_refl. }
  destruct (body msg) as [upos nm tgts|[p x]|targets re|target|] eqn:Hbody.
  - rewrite (msg_handler_UseSkill dp cp self q r msg upos nm tgts) by done.
    case_bool_decide; [destruct tgts|]; apply same_but_state_refl.
  - rewrite (msg_handler_ChangeCharacter dp cp self q r msg p x) by done.
    cbn [fst snd]. unfold same_but_state.
    assert (alive (switched p x self) = alive self) as ->
      by (by rewrite switched_only_active).
    assert (health_point (switched p x self) = health_point self) as ->
      by (by rewrite switched_only_active).
    rewrite (switched_only_active p x self) at 1. by destruct self.
  - destruct (msg_handler_DealDamage_run dp cp self q r msg targets re)
      as (e' & q' & -> & Hsame & _); [done..|].
    by apply same_but_state_of_health.
  - rewrite (msg_handler_no_branch dp cp self q r msg) by eauto.
    apply same_but_state_refl.
  - rewrite (msg_handler_no_branch dp cp self q r msg) by eauto.
    apply same_but_state_refl.
Qed.

(** X1: whatever the queue holds and however the call ends, the handler
    leaves every attribute of its entity as it was except [active], [alive]
    and [health_point]; identity, position, skills and power are never
    written. *)
Theorem msg_handler_frame
    (dp cp : Z) (self : CharacterEntity) (q : PriorityQueue) :
  let e' := (msg_handler dp cp self q).1.2 in
  e' = set_active (active e')
         (set_alive (alive e') (set_health_point (health_point e') self)).
Proof. apply msg_handler_same_but_state. Qed.

(** X2: the handler raises in two situations only, both with
    [IndexError]: the queue has no head, or the head is a [UseSkillMsg]
    with an empty target list whose user position is the entity's position
    and to which the entity has not responded. *)
Theorem msg_handler_raises_iff
    (dp cp : Z) (self : CharacterEntity) (q : PriorityQueue) (ex : Exn) :
  (msg_handler dp cp self q).1.1 = Raise ex
  ↔ ex = IndexError
    ∧ (head_msg q = None
       ∨ ∃ r msg nm,
           head_msg q = Some (r, msg)
           ∧ (_uuid self ∉ responded_entities msg)
           ∧ body msg = UseSkillMsg (position self) nm []).
Proof.
  destruct (head_msg q) as [[r msg]|] eqn:Hhead.
  2:{ unfold msg_handler. rewrite Hhead. cbn. split.
      - intros [= <-]. auto.
      - by intros [-> _]. }
  destruct (decide (_uuid self ∈ responded_entities msg)) as [Hin|Hfresh].
  { rewrite (msg_handler_responded dp cp self q r msg) by done. cbn.
    split; [done|]. intros [_ [?|(r' & msg' & nm & [= <- <-] & Hf & _)]]; done. }
  destruct (body msg) as [upos nm tgts|[p x]|targets re|target|] eqn:Hbody.
  - rewrite (msg_handler_UseSkill dp cp self q r msg upos nm tgts) by done.
    case_bool_decide as Hpos.
    + destruct tgts as [|t ts]; cbn.
      * split; [intros [= <-]|by intros [-> _]]. split; [done|]. right.
        exists r, msg, nm. by rewrite Hbody, Hpos.
      * split; [done|].
        intros [_ [?|(r' & msg' & nm' & [= <- <-] & _ & Hb)]]; [done|].
        rewrite Hbody in Hb. done.
    + cbn. split; [done|].
      intros [_ [?|(r' & msg' & nm' & [= <- <-] & _ & Hb)]]; [done|].
      rewrite Hbody in Hb. injection Hb as ? ? ?. done.
  - rewrite (msg_handler_ChangeCharacter dp cp self q r msg p x) by done. cbn.
    split; [done|].
    intros [_ [?|(r' & msg' & nm' & [= <- <-] & _ & Hb)]]; [done|].
    rewrite Hbody in Hb. done.
  - destruct (msg_handler_DealDamage_run dp cp self q r msg targets re)
      as (e' & q' & -> & _); [done..|]. cbn.
    split; [done|].
    intros [_ [?|(r' & msg' & nm' & [= <- <-] & _ & Hb)]]; [done|].
    rewrite Hbody in Hb. done.
  - rewrite (msg_handler_no_branch dp cp self q r msg) by eauto. cbn.
    split; [done|].
    intros [_ [?|(r' & msg' & nm' & [= <- <-] & _ & Hb)]]; [done|].
    rewrite Hbody in Hb. done.
  - rewrite (msg_handler_no_branch dp cp self q r msg) by eauto. cbn.
    split; [done|].
    intros [_ [?|(r' & msg' & nm' & [= <- <-] & _ & Hb)]]; [done|].
    rewrite Hbody in Hb. done.
Qed.

Lemma append_responded_neq r u q m :
  store q !! r = Some m → append_responded r u q ≠ q.
Proof.
  intros Hm Heq. apply (f_equal (λ q0, store q0 !! r)) in Heq.
  rewrite (append_responded_lookup r u q m Hm), Hm in Heq.
  injection Heq as Heq. apply (f_equal responded_entities) in Heq.
  apply (f_equal length) in Heq. cbn in Heq.
  rewrite length_app in Heq. simpl in Heq. lia.
Qed.

(** X3: the returned flag tells whether the call recorded anything.  A
    call that returns [False] has changed neither the entity nor the queue;
    a call that returns [True] has changed the queue state (a message was
    pushed or the entity's id was appended to the head's responded list). *)
Theorem msg_handler_flag
    (dp cp : Z) (self : CharacterEntity) (q : PriorityQueue) (b : bool) :
  (msg_handler dp cp self q).1.1 = Return b →
  let e' := (msg_handler dp cp self q).1.2 in
  let q' := (msg_handler dp cp self q).2 in
  (b = false → e' = self ∧ q' = q) ∧ (b = true → q' ≠ q).
Proof.
  destruct (head_msg q) as [[r msg]|] eqn:Hhead.
  2:{ unfold msg_handler. rewrite Hhead. done. }
  pose proof Hhead as [Hh Hr]%head_msg_Some.
  destruct (decide (_uuid self ∈ responded_entities msg)) as [Hin|Hfresh].
  { rewrite (msg_handler_responded dp cp self q r msg) by done. cbn.
    intros [= <-]. done. }
  destruct (body msg) as [upos nm tgts|[p x]|targets re|target|] eqn:Hbody.
  - rewrite (msg_handler_UseSkill dp cp self q r msg upos nm tgts) by done.
    case_bool_decide as Hpos; [|cbn; intros [= <-]; done].
    destruct tgts as [|t ts]; cbn; [done|]. intros [= <-]. split; [done|].
    intros _ Heq. apply (f_equal (λ q0, length (store q0))) in Heq.
    rewrite put_store, length_app in Heq. cbn in Heq. lia.
  - rewrite (msg_handler_ChangeCharacter dp cp self q r msg p x) by done.
    cbn [fst snd]. intros [= <-].
    destruct (bool_decide (player_id self = p)
              && (bool_decide (position self = x) || active self)) eqn:Hrel.
    + split; [done|]. intros _. by eapply append_responded_neq.
    + split; [|done]. intros _. split; [|done]. by apply switched_not_relevant.
  - destruct (msg_handler_DealDamage_run dp cp self q r msg targets re)
      as (e' & q' & Hrun & _ & _ & _ & _ & _ & _ & Hmsg & _); [done..|].
    rewrite Hrun. cbn [fst snd]. intros [= <-]. split.
    + intros Hnone. apply bool_decide_eq_false in Hnone.
      assert (addressed_amounts self targets = []) as Hnil
        by (by destruct (addressed_amounts self targets); [|exfalso; apply Hnone]).
      rewrite (msg_handler_DealDamage dp cp self q r msg targets re) in Hrun by done.
      rewrite (damage_loop_no_addressed cp r targets false self q Hnil) in Hrun.
      split; congruence.
    + intros Hsome. apply bool_decide_eq_true in Hsome. intros ->.
      rewrite Hr in Hmsg. injection Hmsg as Hmsg.
      apply (f_equal responded_entities) in Hmsg. cbn in Hmsg.
      apply (f_equal length) in Hmsg. rewrite length_app, length_replicate in Hmsg.
      destruct (addressed_amounts self targets); [done|]. cbn in Hmsg. lia.
  - rewrite (msg_handler_no_branch dp cp self q r msg) by eauto. cbn.
    intros [= <-]. done.
  - rewrite (msg_handler_no_branch dp cp self q r msg) by eauto. cbn.
    intros [= <-]. done.
Qed.

Lemma msg_handler_flag_witness :
  let kaeya := Sample.entity 7 "Kaeya" Sample.kaeya_card 1 0 true true 10 in
  let q := Sample.single (Sample.change 2 (2%nat, 0%nat)) in
  (msg_handler 3 1 kaeya q).1.2 = kaeya ∧ (msg_handler 3 1 kaeya q).2 = q.
Proof.
  intros kaeya q.
  destruct (msg_handler_flag 3 1 kaeya q false) as [Hidle _].
  - reflexivity.
  - apply Hidle. reflexivity.
Defined.

(** X4: unless the call pops the queue (a [UseSkillMsg] at the entity's
    own position), calling the handler a second time in a row does nothing:
    the second call returns [False] and leaves entity and queue as the first
    call left them. *)
Theorem msg_handler_second_call
    (dp cp : Z) (self : CharacterEntity) (q : PriorityQueue)
    (r : ref) (msg : Message) :
  head_msg q = Some (r, msg) →
  ¬ consumes self q →
  let e' := (msg_handler dp cp self q).1.2 in
  let q' := (msg_handler dp cp self q).2 in
  msg_handler dp cp e' q' = (Return false, e', q').
Proof.
  intros Hhead Hkeep. pose proof Hhead as [Hh Hr]%head_msg_Some.
  destruct (decide (_uuid self ∈ responded_entities msg)) as [Hin|Hfresh].
  { rewrite !(msg_handler_responded dp cp self q r msg) by done. cbn.
    by apply (msg_handler_responded dp cp self q r msg). }
  destruct (body msg) as [upos nm tgts|[p x]|targets re|target|] eqn:Hbody.
  - rewrite !(msg_handler_UseSkill dp cp self q r msg upos nm tgts) by done.
    case_bool_decide as Hpos.
    { exfalso. apply Hkeep. exists r, msg, nm, tgts. by rewrite <- Hpos. }
    cbn. rewrite (msg_handler_UseSkill dp cp self q r msg upos nm tgts) by done.
    by rewrite bool_decide_eq_false_2.
  - rewrite !(msg_handler_ChangeCharacter dp cp self q r msg p x) by done.
    cbn [fst snd].
    destruct (bool_decide (player_id self = p)
              && (bool_decide (position self = x) || active self)) eqn:Hrel.
    + eapply msg_handler_responded.
      * apply head_msg_Some. split; [exact Hh|].
        by apply append_responded_lookup.
      * cbn. rewrite switched_only_active. cbn. set_solver.
    + rewrite (switched_not_relevant p x self Hrel).
      rewrite (msg_handler_ChangeCharacter dp cp self q r msg p x) by done.
      cbv zeta. rewrite Hrel. by rewrite (switched_not_relevant p x self Hrel).
  - destruct (msg_handler_DealDamage_run dp cp self q r msg targets re)
      as (e' & q' & Hrun & Hsame & _ & _ & _ & _ & Hnew & Hmsg & _ & Hhead');
      [done..|].
    rewrite Hrun. cbn [fst snd].
    destruct Hhead' as [Hhead'|(j & Hj & Hhead')].
    + destruct (addressed_amounts self targets) as [|a amounts] eqn:Hamounts.
      * rewrite (msg_handler_DealDamage dp cp self q r msg targets re) in Hrun by done.
        rewrite (damage_loop_no_addressed cp r targets false self q Hamounts) in Hrun.
        assert (self = e') as <- by congruence.
        assert (q = q') as <- by congruence.
        rewrite (msg_handler_DealDamage dp cp self q r msg targets re) by done.
        by rewrite (damage_loop_no_addressed cp r targets false self q Hamounts).
      * eapply msg_handler_responded.
        -- apply head_msg_Some. split; [exact Hhead'|exact Hmsg].
        -- cbn. rewrite (same_but_health_uuid self e' Hsame). set_solver.
    + eapply msg_handler_no_branch.
      * apply head_msg_Some. split; [exact Hhead'|by apply Hnew].
      * right. by eexists.
  - rewrite !(msg_handler_no_branch dp cp self q r msg) by eauto. cbn.
    apply (msg_handler_no_branch dp cp self q r msg); eauto.
  - rewrite !(msg_handler_no_branch dp cp self q r msg) by eauto. cbn.
    apply (msg_handler_no_branch dp cp self q r msg); eauto.
Qed.

Lemma msg_handler_second_call_witness :
  let ayaka :=
    Sample.entity 3 "Kamisato Ayaka" Sample.ayaka_card 1 0 true true 2 in
  let q := Sample.single (Sample.deal 2 [(1%nat, 0%nat, ElementType_NONE, 5)]) in
  let e' := (msg_handler 3 1 ayaka q).1.2 in
  let q' := (msg_handler 3 1 ayaka q).2 in
  msg_handler 3 1 e' q' = (Return false, e', q').
Proof.
  intros ayaka q.
  apply (msg_handler_second_call 3 1 ayaka q 0%nat
           (Sample.deal 2 [(1%nat, 0%nat, ElementType_NONE, 5)])).
  - reflexivity.
  - unfold consumes. intros (r & msg & nm & tgts & Hhead & _ & Hbody).
    injection Hhead as <- <-. discriminate Hbody.
Defined.

(** ** What a call does to the queue and to the message objects *)

(** X5: message objects are never overwritten.  After any call every
    object that existed before is still there with the same priority,
    sender and payload; its responded list can only have grown at the end,
    and an object other than the head of the queue is exactly as it was. *)
Theorem msg_handler_store_append_only
    (dp cp : Z) (self : CharacterEntity) (q : PriorityQueue)
    (i : ref) (m : Message) :
  store q !! i = Some m →
  let q' := (msg_handler dp cp self q).2 in
  ∃ m',
    store q' !! i = Some m'
    ∧ priority m' = priority m
    ∧ sender_id m' = sender_id m
    ∧ body m' = body m
    ∧ responded_entities m `prefix_of` responded_entities m'
    ∧ (head (queue q) ≠ Some i → m' = m).
Proof.
  intros Hi. pose proof (lookup_lt_Some _ _ _ Hi) as Hlt.
  assert (∀ u, head (queue q) = Some i →
            ∃ m', store (append_responded i u q) !! i = Some m'
                  ∧ priority m' = priority m ∧ sender_id m' = sender_id m
                  ∧ body m' = body m
                  ∧ responded_entities m `prefix_of` responded_entities m'
                  ∧ (head (queue q) ≠ Some i → m' = m)) as Hmark.
  { intros u Hh. eexists. split; [by apply append_responded_lookup|].
    cbn. split_and!; [done..|by apply prefix_app_r|done]. }
  assert (∃ m', store q !! i = Some m'
                ∧ priority m' = priority m ∧ sender_id m' = sender_id m
                ∧ body m' = body m
                ∧ responded_entities m `prefix_of` responded_entities m'
                ∧ (head (queue q) ≠ Some i → m' = m)) as Hsame
    by (by exists m).
  destruct (head_msg q) as [[r msg]|] eqn:Hhead.
  2:{ unfold msg_handler. by rewrite Hhead. }
  pose proof Hhead as [Hh Hr]%head_msg_Some.
  destruct (decide (_uuid self ∈ responded_entities msg)) as [Hin|Hfresh].
  { by rewrite (msg_handler_responded dp cp self q r msg). }
  destruct (body msg) as [upos nm tgts|[p x]|targets re|target|] eqn:Hbody.
  - rewrite (msg_handler_UseSkill dp cp self q r msg upos nm tgts) by done.
    case_bool_decide; [|done]. destruct tgts as [|t ts]; [done|].
    cbn [snd]. exists m. split; [|done]. by rewrite put_lookup_old.
  - rewrite (msg_handler_ChangeCharacter dp cp self q r msg p x) by done.
    cbn [snd]. case_match; [|done].
    destruct (decide (r = i)) as [->|Hne]; [by apply Hmark|].
    exists m. split; [by rewrite append_responded_lookup_ne|].
    split_and!; done.
  - destruct (msg_handler_DealDamage_run dp cp self q r msg targets re)
      as (e' & q' & -> & _ & _ & _ & _ & _ & _ & Hmsg & Hold & _); [done..|].
    cbn [snd]. destruct (decide (r = i)) as [->|Hne].
    + eexists. split; [exact Hmsg|]. assert (msg = m) as -> by congruence.
      cbn. split_and!; [done..|by apply prefix_app_r|congruence].
    + exists m. split; [by rewrite Hold|]. split_and!; done.
  - by rewrite (msg_handler_no_branch dp cp self q r msg) by eauto.
  - by rewrite (msg_handler_no_branch dp cp self q r msg) by eauto.
Qed.

Lemma msg_handler_store_append_only_witness :
  let ayaka :=
    Sample.entity 3 "Kamisato Ayaka" Sample.ayaka_card 1 0 true true 2 in
  let hit := Sample.deal 2 [(1%nat, 0%nat, ElementType_NONE, 5)] in
  ∃ m', store (msg_handler 3 1 ayaka (Sample.single hit)).2 !! 0%nat = Some m'
        ∧ body m' = body hit.
Proof.
  intros ayaka hit.
  destruct (msg_handler_store_append_only 3 1 ayaka (Sample.single hit) 0%nat hit)
    as (m' & Hm' & _ & _ & Hbody & _).
  - reflexivity.
  - exists m'. split; [exact Hm'|exact Hbody].
Defined.

(** X6: nothing but the head ever leaves the queue, and the head leaves
    only when the call pops it (a [UseSkillMsg] at the entity's own
    position): the references behind the head are all still queued after
    any call, and so is the head in every other case. *)
Theorem msg_handler_queue_keeps
    (dp cp : Z) (self : CharacterEntity) (q : PriorityQueue) :
  let q' := (msg_handler dp cp self q).2 in
  tail (queue q) ⊆+ queue q' ∧ (¬ consumes self q → queue q ⊆+ queue q').
Proof.
  assert (tail (queue q) ⊆+ queue q) as Htail by apply (submseteq_drop _ 1).
  destruct (head_msg q) as [[r msg]|] eqn:Hhead.
  2:{ unfold msg_handler. by rewrite Hhead. }
  destruct (decide (_uuid self ∈ responded_entities msg)) as [Hin|Hfresh].
  { by rewrite (msg_handler_responded dp cp self q r msg). }
  destruct (body msg) as [upos nm tgts|[p x]|targets re|target|] eqn:Hbody.
  - rewrite (msg_handler_UseSkill dp cp self q r msg upos nm tgts) by done.
    case_bool_decide as Hpos; [|done]. split.
    + destruct tgts as [|t ts]; cbn [snd]; [done|].
      rewrite put_queue_perm. by apply submseteq_cons.
    + intros Hkeep. exfalso. apply Hkeep. exists r, msg, nm, tgts.
      by rewrite <- Hpos.
  - rewrite (msg_handler_ChangeCharacter dp cp self q r msg p x) by done.
    cbn [snd]. by case_match.
  - destruct (msg_handler_DealDamage_run dp cp self q r msg targets re)
      as (e' & q' & -> & _ & _ & _ & _ & Hperm & _); [done..|].
    cbn [snd]. rewrite Hperm. split; [|intros _]; by apply submseteq_inserts_l.
  - by rewrite (msg_handler_no_branch dp cp self q r msg) by eauto.
  - by rewrite (msg_handler_no_branch dp cp self q r msg) by eauto.
Qed.

Lemma msg_handler_queue_keeps_witness :
  let kaeya := Sample.entity 7 "Kaeya" Sample.kaeya_card 1 1 false true 10 in
  let q := {| store := [Sample.use_skill 1 0 [(2%nat, 0%nat)];
                        Sample.change 1 (1%nat, 1%nat)];
              queue := [0%nat; 1%nat] |} in
  queue q ⊆+ queue (msg_handler 3 1 kaeya q).2.
Proof.
  intros kaeya q.
  destruct (msg_handler_queue_keeps 3 1 kaeya q) as [_ Hkeep].
  apply Hkeep. unfold consumes.
  intros (r & msg & nm & tgts & Hhead & _ & Hbody).
  injection Hhead as <- <-. discriminate Hbody.
Defined.

(** ** Damage without a condition on the amounts *)

(** X7: a [DealDamageMsg] the entity has not responded to folds
    [h - min(h, d)], which is [max(0, h - d)], over the amounts of the
    tuples addressed to the entity, in order and whatever their signs.  So
    the health is non-negative as soon as one tuple is addressed; a negative
    amount raises the health, with no upper bound; and [alive] becomes
    false exactly when the health is 0 after some addressed tuple. *)
Theorem msg_handler_damage_health
    (dp cp : Z) (self : CharacterEntity) (q : PriorityQueue) (r : ref)
    (msg : Message) (targets : list (PlayerID * CharPos * ElementType * Z))
    (reaction : ElementalReactionType) :
  head_msg q = Some (r, msg) →
  body msg = DealDamageMsg targets reaction →
  _uuid self ∉ responded_entities msg →
  let amounts := addressed_amounts self targets in
  let e' := (msg_handler dp cp self q).1.2 in
  health_point e' = foldl (λ h d, Z.max 0 (h - d)) (health_point self) amounts
  ∧ (amounts ≠ [] → 0 ≤ health_point e')
  ∧ alive e'
    = (if bool_decide (deaths (health_point self) amounts = 0%nat)
       then alive self else false).
Proof.
  intros Hhead Hbody Hfresh amounts.
  destruct (msg_handler_DealDamage_run dp cp self q r msg targets reaction)
    as (e' & q' & -> & _ & Hhp & Halive & _); [done..|].
  cbn [fst snd]. fold amounts in Hhp, Halive.
  assert (∀ h l, foldl hit h l = foldl (λ h d, Z.max 0 (h - d)) h l) as Hfold.
  { intros h l. revert h. induction l as [|d l IH]; intros h; [done|].
    cbn [foldl]. by rewrite IH, hit_max. }
  assert (∀ l h, l ≠ [] → 0 ≤ foldl (λ h d, Z.max 0 (h - d)) h l) as Hnn.
  { intros l. induction l as [|d l IH] using rev_ind; intros h Hl; [done|].
    rewrite foldl_app. cbn [foldl]. lia. }
  rewrite Hhp, Hfold. split_and!; [done| |done]. apply Hnn.
Qed.

Lemma msg_handler_damage_health_witness :
  let kaeya := Sample.entity 7 "Kaeya" Sample.kaeya_card 1 0 true true 10 in
  let q := Sample.single (Sample.deal 2 [(1%nat, 0%nat, ElementType_NONE, -4);
                                         (2%nat, 0%nat, ElementType_NONE, 9);
                                         (1%nat, 0%nat, ElementType_NONE, 3)]) in
  health_point (msg_handler 3 1 kaeya q).1.2 = 11.
Proof.
  intros kaeya q.
  destruct (msg_handler_damage_health 3 1 kaeya q 0%nat
              (Sample.deal 2 [(1%nat, 0%nat, ElementType_NONE, -4);
                              (2%nat, 0%nat, ElementType_NONE, 9);
                              (1%nat, 0%nat, ElementType_NONE, 3)])
              [(1%nat, 0%nat, ElementType_NONE, -4);
               (2%nat, 0%nat, ElementType_NONE, 9);
               (1%nat, 0%nat, ElementType_NONE, 3)] ElementalReactionType_NONE)
    as (Hhp & _).
  - reflexivity.
  - reflexivity.
  - apply not_elem_of_nil.
  - etrans; [exact Hhp|]. reflexivity.
Defined.

(** X8: no call ever sets [alive] back to true: a character that is not
    alive before a call is not alive after it, whatever the head of the
    queue is. *)
Theorem msg_handler_never_revives
    (dp cp : Z) (self : CharacterEntity) (q : PriorityQueue) :
  alive self = false → alive (msg_handler dp cp self q).1.2 = false.
Proof.
  intros Hdead.
  destruct (head_msg q) as [[r msg]|] eqn:Hhead.
  2:{ unfold msg_handler. by rewrite Hhead. }
  destruct (decide (_uuid self ∈ responded_entities msg)) as [Hin|Hfresh].
  { by rewrite (msg_handler_responded dp cp self q r msg). }
  destruct (body msg) as [upos nm tgts|[p x]|targets re|target|] eqn:Hbody.
  - rewrite (msg_handler_UseSkill dp cp self q r msg upos nm tgts) by done.
    case_bool_decide; [|done]. by destruct tgts.
  - rewrite (msg_handler_ChangeCharacter dp cp self q r msg p x) by done.
    cbn [fst snd]. by rewrite switched_only_active.
  - destruct (msg_handler_DealDamage_run dp cp self q r msg targets re)
      as (e' & q' & -> & _ & _ & Halive & _); [done..|].
    cbn [fst snd]. rewrite Halive, Hdead. by case_bool_decide.
  - by rewrite (msg_handler_no_branch dp cp self q r msg) by eauto.
  - by rewrite (msg_handler_no_branch dp cp self q r msg) by eauto.
Qed.

Lemma msg_handler_never_revives_witness :
  let ayaka :=
    Sample.entity 3 "Kamisato Ayaka" Sample.ayaka_card 1 0 true false 0 in
  let q := Sample.single (Sample.deal 2 [(1%nat, 0%nat, ElementType_NONE, -3)]) in
  alive (msg_handler 3 1 ayaka q).1.2 = false.
Proof.
  intros ayaka q. apply (msg_handler_never_revives 3 1 ayaka q). reflexivity.
Defined.

(** X9: a [DealDamageMsg] the entity has not responded to enqueues one
    [CharacterDiedMsg] (for the entity's player and position, with an empty
    responded list) for each addressed tuple after which the health is 0,
    and nothing else; the event itself stays queued, and the entity's id is
    appended to its responded list once per addressed tuple. *)
Theorem msg_handler_damage_queue
    (dp cp : Z) (self : CharacterEntity) (q : PriorityQueue) (r : ref)
    (msg : Message) (targets : list (PlayerID * CharPos * ElementType * Z))
    (reaction : ElementalReactionType) :
  head_msg q = Some (r, msg) →
  body msg = DealDamageMsg targets reaction →
  _uuid self ∉ responded_entities msg →
  let amounts := addressed_amounts self targets in
  let n := deaths (health_point self) amounts in
  let q' := (msg_handler dp cp self q).2 in
  queue q' ≡ₚ seq (length (store q)) n ++ queue q
  ∧ length (store q') = (length (store q) + n)%nat
  ∧ (∀ j, (j < n)%nat →
       store q' !! (length (store q) + j)%nat
       = Some {| priority := cp;
                 sender_id := player_id self;
                 responded_entities := [];
                 body := CharacterDiedMsg (player_id self, position self) |})
  ∧ store q' !! r
    = Some (mkMessage (priority msg) (sender_id msg)
              (responded_entities msg ++ replicate (length amounts) (_uuid self))
              (body msg)).
Proof.
  intros Hhead Hbody Hfresh amounts n.
  destruct (msg_handler_DealDamage_run dp cp self q r msg targets reaction)
    as (e' & q' & -> & _ & _ & _ & Hlen & Hperm & Hnew & Hmsg & _); [done..|].
  cbn [snd]. split_and!; done.
Qed.

Lemma msg_handler_damage_queue_witness :
  let kaeya := Sample.entity 7 "Kaeya" Sample.kaeya_card 1 0 true true 10 in
  let hit := Sample.deal 2 [(1%nat, 0%nat, ElementType_NONE, 4)] in
  queue (msg_handler 3 1 kaeya (Sample.single hit)).2 ≡ₚ [0%nat].
Proof.
  intros kaeya hit.
  destruct (msg_handler_damage_queue 3 1 kaeya (Sample.single hit) 0%nat hit
              [(1%nat, 0%nat, ElementType_NONE, 4)] ElementalReactionType_NONE)
    as (Hperm & _).
  - reflexivity.
  - reflexivity.
  - apply not_elem_of_nil.
  - exact Hperm.
Defined.

(** ** Skill lookup and construction *)

(** X10: [__init__] raises exactly when the character name is missing from
    the name table or the id it maps to is missing from the card table, and
    what it raises is [KeyError]. *)
Theorem CharacterEntity_init_raises_iff
    (n2i : gmap string nat) (cards : gmap nat CharacterCard.t)
    (uuid : UUID) (nm : string) (p : PlayerID) (pos : CharPos) (ex : Exn) :
  CharacterEntity_init n2i cards uuid nm p pos = Raise ex
  ↔ ex = KeyError
    ∧ (n2i !! nm = None ∨ ∃ i, n2i !! nm = Some i ∧ cards !! i = None).
Proof.
  unfold CharacterEntity_init.
  destruct (n2i !! nm) as [i|] eqn:Hn.
  - destruct (cards !! i) as [card|] eqn:Hc.
    + split; [done|]. intros [_ [?|(i' & [= <-] & Hnone)]]; [done|congruence].
    + split; [intros [= <-]|by intros [-> _]]. split; [done|]. right. by exists i.
  - split; [intros [= <-]|by intros [-> _]]. split; [done|]. by left.
Qed.

(** X11: lookup by index on a character built by [__init__]: the call
    returns the skill that the card has at that index when the index is
    within the card's skills, and fails the assertion for every other
    index, negative ones included; it never raises [IndexError] and the
    name and category arguments play no role. *)
Theorem get_raw_skill_by_id_after_init
    (n2i : gmap string nat) (cards : gmap nat CharacterCard.t)
    (uuid : UUID) (nm : string) (p : PlayerID) (pos : CharPos)
    (e : CharacterEntity) :
  CharacterEntity_init n2i cards uuid nm p pos = Return e →
  ∃ card,
    (n2i !! nm ≫= (cards !!.)) = Some card
    ∧ ∀ (i : Z) (skill_name : option string) (skill_type : option SkillType),
        (0 ≤ i < Z.of_nat (length (CharacterCard.skills card)) →
           ∃ s, CharacterCard.skills card !! Z.to_nat i = Some s
                ∧ get_raw_skill e (Some i) skill_name skill_type
                  = Return (Some s))
        ∧ (¬ (0 ≤ i < Z.of_nat (length (CharacterCard.skills card))) →
           get_raw_skill e (Some i) skill_name skill_type
           = Raise AssertionError).
Proof.
  intros Hinit. pose proof (CharacterEntity_init_skills_consistent _ _ _ _ _ _ _ Hinit)
    as Hok.
  unfold CharacterEntity_init in Hinit.
  destruct (n2i !! nm) as [i0|] eqn:Hn; [|done].
  destruct (cards !! i0) as [card|] eqn:Hc; [|done].
  exists card. split; [exact Hc|].
  intros i sn st. injection Hinit as <-.
  destruct (get_raw_skill_by_id _ i sn st Hok) as [Hin Hout].
  cbn [skill_num skills] in *. split; intros Hi.
  - apply Hin. lia.
  - apply Hout. lia.
Qed.

Lemma get_raw_skill_by_id_after_init_witness :
  ∃ e, CharacterEntity_init Sample.NAME2ID Sample.CARDS 7 "Kaeya" 1 0 = Return e
       ∧ get_raw_skill e (Some 2) None None = Raise AssertionError.
Proof.
  eexists. split; [vm_compute; reflexivity|].
  edestruct (get_raw_skill_by_id_after_init Sample.NAME2ID Sample.CARDS
               7%nat "Kaeya" 1%nat 0%nat) as (card & Hcard & Hget).
  - vm_compute. reflexivity.
  - vm_compute in Hcard. injection Hcard as <-.
    apply (Hget 2 None None). simpl. lia.
Defined.

(** X12: lookup by name (no index given) on an entity whose skill
    attributes agree: the call returns the first skill of the list that
    carries the name and fails the assertion when no skill does; it never
    raises [IndexError]. *)
Theorem get_raw_skill_by_name_first
    (self : CharacterEntity) (nm : string) (ty : option SkillType) :
  skills_consistent self →
  get_raw_skill self None (Some nm) ty
  = match list_find (λ s, Skill.name s = nm) (skills self) with
    | Some (_, s) => Return (Some s)
    | None => Raise AssertionError
    end.
Proof.
  intros Hok. destruct (get_raw_skill_by_name self nm ty Hok) as [Hin Hout].
  destruct (decide (nm ∈ skill_names self)) as [Hnm|Hnm].
  - destruct (Hin Hnm) as (i & s & Hs & Hname & Hfirst & ->).
    assert (list_find (λ s0, Skill.name s0 = nm) (skills self) = Some (i, s)) as ->;
      [|done].
    apply list_find_Some. split_and!; [done..|].
    intros j s' Hs' Hj. by eapply Hfirst.
  - rewrite (Hout Hnm).
    assert (list_find (λ s0, Skill.name s0 = nm) (skills self) = None) as ->;
      [|done].
    apply list_find_None, Forall_forall. intros s Hs Hname. apply Hnm.
    destruct Hok as [_ ->]. rewrite <- Hname. by apply list_elem_of_fmap_2.
Qed.

Lemma get_raw_skill_by_name_first_witness :
  get_raw_skill (Sample.entity 7 "Kaeya" Sample.kaeya_card 1 0 true true 10)
    None (Some "Frostgnaw") None
  = Return (Some (Skill.init "Frostgnaw" (Some [(1%nat, 3)]) 1%nat)).
Proof.
  etrans; [apply get_raw_skill_by_name_first|reflexivity].
  split; reflexivity.
Defined.

(** X13: whatever the entity's attributes are, [get_raw_skill] never
    makes a skill up: a skill it returns is an element of [self.skills];
    and it returns [None] only on the by-category path (no index, no name,
    a category). *)
Theorem get_raw_skill_returns_member
    (self : CharacterEntity) (i : option Z) (nm : option string)
    (ty : option SkillType) (o : option Skill.t) :
  get_raw_skill self i nm ty = Return o →
  match o with
  | Some s => s ∈ skills self
  | None => i = None ∧ nm = None ∧ is_Some ty
  end.
Proof.
  unfold get_raw_skill. destruct i as [i|].
  - case_bool_decide; [|done].
    destruct (skills self !! Z.to_nat i) as [s|] eqn:Hs; [|done].
    intros [= <-]. by eapply list_elem_of_lookup_2.
  - destruct nm as [nm|].
    + case_bool_decide; [|done].
      destruct (list_index nm (skill_names self)) as [j|]; [|done]. cbn.
      destruct (skills self !! j) as [s|] eqn:Hs; [|done].
      intros [= <-]. by eapply list_elem_of_lookup_2.
    + case_bool_decide; [|done]. by intros [= <-].
Qed.

Lemma get_raw_skill_returns_member_witness :
  Skill.init "Frostgnaw" (Some [(1%nat, 3)]) 1%nat
  ∈ skills (Sample.entity 7 "Kaeya" Sample.kaeya_card 1 0 true true 10).
Proof.
  apply (get_raw_skill_returns_member
           (Sample.entity 7 "Kaeya" Sample.kaeya_card 1 0 true true 10)
           (Some 1) None None (Some (Skill.init "Frostgnaw" (Some [(1%nat, 3)]) 1%nat))).
  reflexivity.
Defined.

(** X14: handling messages never changes what [get_raw_skill] answers:
    after any handler call every lookup gives the result it gave before. *)
Theorem get_raw_skill_after_handler
    (dp cp : Z) (self : CharacterEntity) (q : PriorityQueue)
    (i : option Z) (nm : option string) (ty : option SkillType) :
  get_raw_skill (msg_handler dp cp self q).1.2 i nm ty
  = get_raw_skill self i nm ty.
Proof. by rewrite (msg_handler_same_but_state dp cp self q). Qed.


(** ** Snapshots *)

Lemma encode_snapshot self : encode self = Some (list_to_map (snapshot self)).
Proof. reflexivity. Qed.

Lemma snapshot_keys self : (snapshot self).*1 = properties.
Proof. reflexivity. Qed.

(** X15: [encode] always succeeds, and the dict it returns has exactly the
    eight keys of its [properties] list. *)
Theorem encode_keys (self : CharacterEntity) :
  ∃ d, encode self = Some d ∧ ∀ k, is_Some (d !! k) ↔ k ∈ properties.
Proof.
  exists (list_to_map (snapshot self)). split; [apply encode_snapshot|].
  intros k. rewrite <- (snapshot_keys self), <- not_eq_None_Some.
  rewrite <- (not_elem_of_list_to_map (M := gmap string) (snapshot self) k).
  split; [apply dec_stable|]. by intros ? ?.
Qed.

(** X16: round trip.  Building a [CharacterEntityInfo] from the dict that
    [encode] returns succeeds, and its eight attributes hold the values of
    the entity's attributes of the same names. *)
Theorem encode_decode (self : CharacterEntity) :
  ∃ d,
    encode self = Some d
    ∧ CharacterEntityInfo.init d
      = Return {|
          CharacterEntityInfo.name := PStr (name self);
          CharacterEntityInfo.active := PBool (active self);
          CharacterEntityInfo.alive := PBool (alive self);
          CharacterEntityInfo.elemental_infusion :=
            PElementType (elemental_infusion self);
          CharacterEntityInfo.elemental_attachment :=
            PElementType (elemental_attachment self);
          CharacterEntityInfo.health_point := PInt (health_point self);
          CharacterEntityInfo.power := PInt (power self);
          CharacterEntityInfo.max_power := PInt (max_power self);
        |}.
Proof.
  exists (list_to_map (snapshot self)). split; [apply encode_snapshot|].
  unfold CharacterEntityInfo.init, snapshot.
  cbn [list_to_map foldr uncurry fst snd]. by simplify_map_eq.
Qed.

(** X17: [CharacterEntityInfo.__init__] raises exactly when the dict lacks
    one of the eight keys, and what it raises is [KeyError]. *)
Theorem CharacterEntityInfo_init_raises_iff
    (d : gmap string PyVal) (ex : Exn) :
  CharacterEntityInfo.init d = Raise ex
  ↔ ex = KeyError ∧ ∃ k, k ∈ properties ∧ d !! k = None.
Proof.
  unfold CharacterEntityInfo.init. split.
  - intros Hraise.
    destruct (d !! "name") eqn:H1; cbn in Hraise;
      [|injection Hraise as <-; split; [done|]; exists "name"; split; [set_solver|done]].
    destruct (d !! "active") eqn:H2; cbn in Hraise;
      [|injection Hraise as <-; split; [done|]; exists "active"; split; [set_solver|done]].
    destruct (d !! "alive") eqn:H3; cbn in Hraise;
      [|injection Hraise as <-; split; [done|]; exists "alive"; split; [set_solver|done]].
    destruct (d !! "elemental_infusion") eqn:H4; cbn in Hraise;
      [|injection Hraise as <-; split; [done|]; exists "elemental_infusion";
        split; [set_solver|done]].
    destruct (d !! "elemental_attachment") eqn:H5; cbn in Hraise;
      [|injection Hraise as <-; split; [done|]; exists "elemental_attachment";
        split; [set_solver|done]].
    destruct (d !! "health_point") eqn:H6; cbn in Hraise;
      [|injection Hraise as <-; split; [done|]; exists "health_point";
        split; [set_solver|done]].
    destruct (d !! "power") eqn:H7; cbn in Hraise;
      [|injection Hraise as <-; split; [done|]; exists "power"; split; [set_solver|done]].
    destruct (d !! "max_power") eqn:H8; cbn in Hraise;
      [|injection Hraise as <-; split; [done|]; exists "max_power";
        split; [set_solver|done]].
    done.
  - intros [-> (k & Hk & Hnone)]. unfold properties in Hk.
    repeat (apply elem_of_cons in Hk as [->|Hk];
            [rewrite Hnone; repeat (destruct (d !! _); cbn; try done)|]);
      try done.
    by apply elem_of_nil in Hk.
Qed.

(** X18: [CharacterEntityInfo.__init__] reads the eight keys and nothing
    else: an entry under any other key does not change its result. *)
Theorem CharacterEntityInfo_init_ignores
    (d : gmap string PyVal) (k : string) (v : PyVal) :
  k ∉ properties →
  CharacterEntityInfo.init (<[k:=v]> d) = CharacterEntityInfo.init d.
Proof.
  intros Hk. unfold CharacterEntityInfo.init, properties in *.
  rewrite !lookup_insert_ne; [done|..]; intros ->; apply Hk; set_solver.
Qed.

Lemma CharacterEntityInfo_init_ignores_witness :
  CharacterEntityInfo.init (<["position" := PCharPos 2]> ∅)
  = CharacterEntityInfo.init ∅.
Proof.
  apply CharacterEntityInfo_init_ignores.
  apply (bool_decide_unpack _). vm_compute. exact I.
Defined.

(** X19: a handler call shows in the snapshot under the keys [active],
    [alive] and [health_point] only: every other entry of [encode] is the
    same before and after the call. *)
Theorem encode_after_handler
    (dp cp : Z) (self : CharacterEntity) (q : PriorityQueue) :
  ∃ d d',
    encode self = Some d
    ∧ encode (msg_handler dp cp self q).1.2 = Some d'
    ∧ ∀ k, k ≠ "active" → k ≠ "alive" → k ≠ "health_point" →
           d' !! k = d !! k.
Proof.
  eexists _, _. split; [apply encode_snapshot|]. split; [apply encode_snapshot|].
  intros k Ha Hl Hh. rewrite (msg_handler_same_but_state dp cp self q).
  unfold snapshot. cbn [list_to_map foldr uncurry fst snd].
  cbn [name active alive elemental_infusion elemental_attachment health_point
       power max_power set_active set_alive set_health_point].
  repeat (rewrite (lookup_insert (M := gmap string)); case_decide; [subst; done|]).
  done.
Qed.

(** ** Entities side by side *)

(** X20: on a [ChangeCharacterMsg] the entities do not interfere.  When
    entities with pairwise distinct ids, none of which has responded,
    handle the event one after the other, each ends in the state it would
    reach by handling the event alone on the initial queue; hence the
    outcome does not depend on the order in which they are called. *)
Theorem change_character_independent
    (dp cp : Z) (es es' : list CharacterEntity) (q : PriorityQueue)
    (r : ref) (msg : Message) (p : PlayerID) (x : CharPos) :
  head_msg q = Some (r, msg) →
  body msg = ChangeCharacterMsg (p, x) →
  NoDup (_uuid <$> es) →
  Forall (λ e, _uuid e ∉ responded_entities msg) es →
  (broadcast dp cp es q).1.*2 = (λ e, (msg_handler dp cp e q).1.2) <$> es
  ∧ (es ≡ₚ es' →
     (broadcast dp cp es q).1.*2 ≡ₚ (broadcast dp cp es' q).1.*2).
Proof.
  intros Hhead Hbody Hnd Hall.
  assert (∀ l, NoDup (_uuid <$> l) →
               Forall (λ e, _uuid e ∉ responded_entities msg) l →
               (broadcast dp cp l q).1.*2 = switched p x <$> l) as Hrun.
  { intros l Hl1 Hl2.
    pose proof (broadcast_ChangeCharacter dp cp l q r msg p x
                  Hhead Hbody Hl1 Hl2) as H.
    destruct (broadcast dp cp l q) as [res q']. by destruct H as [H _]. }
  split.
  - rewrite (Hrun es Hnd Hall). apply Forall_fmap_ext_1.
    eapply Forall_impl; [exact Hall|]. intros e He. cbn beta in He.
    by rewrite (msg_handler_ChangeCharacter dp cp e q r msg p x).
  - intros Hperm. rewrite (Hrun es Hnd Hall), (Hrun es').
    + by rewrite Hperm.
    + by rewrite <- Hperm.
    + by rewrite <- Hperm.
Qed.

Lemma change_character_independent_witness :
  let ayaka := Sample.entity 3 "Kamisato Ayaka" Sample.ayaka_card 1 0 true true 10 in
  let kaeya := Sample.entity 7 "Kaeya" Sample.kaeya_card 1 1 false true 10 in
  let q := Sample.single (Sample.change 1 (1%nat, 1%nat)) in
  (broadcast 3 1 [ayaka; kaeya] q).1.*2
  ≡ₚ (broadcast 3 1 [kaeya; ayaka] q).1.*2.
Proof.
  intros ayaka kaeya q.
  destruct (change_character_independent 3 1 [ayaka; kaeya] [kaeya; ayaka] q
              0%nat (Sample.change 1 (1%nat, 1%nat)) 1%nat 1%nat) as [_ Hswap].
  - reflexivity.
  - reflexivity.
  - apply (bool_decide_unpack _). vm_compute. exact I.
  - repeat (apply Forall_cons; split; [apply not_elem_of_nil|]).
    apply Forall_nil_2.
  - apply Hswap. apply Permutation_swap.
Defined.

(** X21: damage reaches addressed characters only.  On a [DealDamageMsg]
    it has not responded to, the handler returns [True] exactly when some
    tuple names the entity's player and position; when none does, the call
    changes neither the entity nor the queue, and the entity is not recorded
    as responded. *)
Theorem msg_handler_damage_addressed
    (dp cp : Z) (self : CharacterEntity) (q : PriorityQueue) (r : ref)
    (msg : Message) (targets : list (PlayerID * CharPos * ElementType * Z))
    (reaction : ElementalReactionType) :
  head_msg q = Some (r, msg) →
  body msg = DealDamageMsg targets reaction →
  _uuid self ∉ responded_entities msg →
  (∃ b, (msg_handler dp cp self q).1.1 = Return b
        ∧ (b = true ↔ ∃ t, t ∈ targets ∧ player_id self = t.1.1.1
                           ∧ position self = t.1.1.2))
  ∧ ((∀ t, t ∈ targets →
        ¬ (player_id self = t.1.1.1 ∧ position self = t.1.1.2)) →
     msg_handler dp cp self q = (Return false, self, q)).
Proof.
  intros Hhead Hbody Hfresh.
  assert (∀ t, addressed self t = true
               ↔ player_id self = t.1.1.1 ∧ position self = t.1.1.2) as Haddr.
  { intros t. unfold addressed. rewrite andb_true_iff, !bool_decide_eq_true. done. }
  assert (addressed_amounts self targets ≠ []
          ↔ ∃ t, t ∈ targets ∧ player_id self = t.1.1.1
                 ∧ position self = t.1.1.2) as Hsome.
  { unfold addressed_amounts. split.
    - intros Hne.
      destruct (filter (λ t, addressed self t = true) targets) as [|t l] eqn:Hf;
        [done|].
      assert (t ∈ filter (λ t, addressed self t = true) targets) as Hin
        by (rewrite Hf; apply elem_of_cons; by left).
      apply list_elem_of_filter in Hin as [Ha Hin]. exists t. split; [done|].
      by apply Haddr.
    - intros (t & Hin & Ht) Hnil. apply fmap_nil_inv in Hnil.
      assert (t ∈ filter (λ t, addressed self t = true) targets) as Hf
        by (apply list_elem_of_filter; split; [by apply Haddr|done]).
      rewrite Hnil in Hf. by apply elem_of_nil in Hf. }
  split.
  - destruct (msg_handler_DealDamage_run dp cp self q r msg targets reaction)
      as (e' & q' & -> & _); [done..|].
    cbn [fst]. eexists. split; [done|].
    by rewrite bool_decide_eq_true.
  - intros Hnone.
    rewrite (msg_handler_DealDamage dp cp self q r msg targets reaction) by done.
    rewrite damage_loop_no_addressed; [done|].
    destruct (addressed_amounts self targets) eqn:Ham; [done|].
    exfalso. destruct (proj1 Hsome) as (t & Hin & Ht); [done|].
    by apply (Hnone t).
Qed.

Lemma msg_handler_damage_addressed_witness :
  let kaeya := Sample.entity 7 "Kaeya" Sample.kaeya_card 1 1 false true 10 in
  let hit := Sample.deal 2 [(1%nat, 0%nat, ElementType_NONE, 5)] in
  msg_handler 3 1 kaeya (Sample.single hit)
  = (Return false, kaeya, Sample.single hit).
Proof.
  intros kaeya hit.
  destruct (msg_handler_damage_addressed 3 1 kaeya (Sample.single hit) 0%nat hit
              [(1%nat, 0%nat, ElementType_NONE, 5)] ElementalReactionType_NONE)
    as [_ Hidle].
  - reflexivity.
  - reflexivity.
  - apply not_elem_of_nil.
  - apply Hidle. intros t Ht [_ Hpos].
    apply list_elem_of_singleton in Ht. subst t. discriminate Hpos.
Defined.
